(** * Single-source-of-truth guard: a shallow embedding and its properties

    The plugin [.opencode/plugin/single-source-of-truth.js] intercepts the
    [write] and [patch] tools and refuses file names that look like variants
    of an existing file.  The JavaScript is embedded function by function:
    strings are sequences of UTF-16 code units, regular expressions are
    written as the backtracking matchers they denote, the [Set] keeps its
    insertion order, and the asynchronous hook runs in a small monad that
    records the observable calls and carries a thrown [Error]. *)

From Stdlib Require Import List NArith Bool Arith Lia String Ascii.
Import ListNotations.

Local Open Scope N_scope.

(** ** JavaScript strings and values *)

Module JS.

(** A string is its sequence of UTF-16 code units. *)
Definition jsstring := list N.

(** An ASCII literal as a JavaScript string. *)
Definition js (s : string) : jsstring :=
  map N_of_ascii (list_ascii_of_string s).

(** [s === t] on strings. *)
Fixpoint str_eqb (s t : jsstring) : bool :=
  match s, t with
  | [], [] => true
  | a :: s', b :: t' => N.eqb a b && str_eqb s' t'
  | _, _ => false
  end.

(** [lo <= c && c <= hi] *)
Definition between (lo hi c : N) : bool := N.leb lo c && N.leb c hi.

(** Character classes of the regular expressions in the plugin. *)
Definition isLower (c : N) : bool := between 97 122 c.      (* [a-z] *)
Definition isUpper (c : N) : bool := between 65 90 c.       (* [A-Z] *)
Definition isDigit (c : N) : bool := between 48 57 c.       (* [0-9], \d *)
Definition isLowerOrDigit (c : N) : bool := isLower c || isDigit c.  (* [a-z0-9] *)

(** [.] without the [s] flag: anything but a line terminator. *)
Definition isLineTerminator (c : N) : bool :=
  N.eqb c 10 || N.eqb c 13 || N.eqb c 8232 || N.eqb c 8233.

(** [\s]: WhiteSpace and LineTerminator of ECMAScript. *)
Definition isSpace (c : N) : bool :=
  between 9 13 c || N.eqb c 32 || N.eqb c 160 || N.eqb c 5760
  || between 8192 8202 c || N.eqb c 8232 || N.eqb c 8233
  || N.eqb c 8239 || N.eqb c 8287 || N.eqb c 12288 || N.eqb c 65279.

(** [String.prototype.toLowerCase].  The code units whose lower-case form
    contains an ASCII letter are [A]-[Z], U+0130 (which becomes [i] followed
    by U+0307) and the Kelvin sign U+212A (which becomes [k]); every other
    code unit maps to code units outside ASCII, which the tokenizer treats
    as separators whatever they are, and is left as it is here. *)
Definition lowerUnit (c : N) : jsstring :=
  if isUpper c then [c + 32]
  else if N.eqb c 304 then [105; 775]
  else if N.eqb c 8490 then [107]
  else [c].

Definition toLowerCase (s : jsstring) : jsstring := flat_map lowerUnit s.

(** [s.split(sep)] for a one-unit separator: the pieces between the
    separators, empty pieces included; never the empty array. *)
Fixpoint splitAt (sep : N) (cur : jsstring) (s : jsstring) : list jsstring :=
  match s with
  | [] => [rev cur]
  | c :: r => if N.eqb c sep then rev cur :: splitAt sep [] r
              else splitAt sep (c :: cur) r
  end.

Definition split (sep : N) (s : jsstring) : list jsstring := splitAt sep [] s.

(** The values a tool call can carry: JSON-like data.  An object is its
    list of own properties. *)
#[local] Set Warnings "-register-all".
Inductive value : Type :=
| VUndefined
| VNull
| VBool (b : bool)
| VNumber (n : N)
| VString (s : jsstring)
| VArray (items : list value)
| VObject (props : list (jsstring * value)).

Fixpoint lookup (k : jsstring) (props : list (jsstring * value)) : value :=
  match props with
  | [] => VUndefined
  | (k', v) :: rest => if str_eqb k k' then v else lookup k rest
  end.

(** [v?.k] for the property names the plugin reads ([tool], [args],
    [filePath], [path], [patch], [content]): none of them exists on a
    primitive or an array, and [?.] turns [null] and [undefined] into
    [undefined]. *)
Definition optGet (v : value) (k : jsstring) : value :=
  match v with
  | VObject props => lookup k props
  | _ => VUndefined
  end.

(** [a ?? b] *)
Definition nullish (a b : value) : value :=
  match a with
  | VUndefined | VNull => b
  | _ => a
  end.

(** [v === "lit"] *)
Definition strictEqStr (v : value) (lit : jsstring) : bool :=
  match v with
  | VString s => str_eqb s lit
  | _ => false
  end.

(** [typeof v === "string"] *)
Definition isString (v : value) : bool :=
  match v with VString _ => true | _ => false end.

End JS.

Import JS.

(** ** Regular expressions, as matchers in continuation style

    Each combinator consumes a prefix of the input and hands the rest to its
    continuation; alternatives are tried in the order the backtracking
    matcher of ECMAScript tries them (the longest repetition first). *)

Module Re.

Section Matchers.
Variable A : Type.

(** A literal run of code units. *)
Fixpoint lit (p : jsstring) (k : jsstring -> option A) (s : jsstring) : option A :=
  match p with
  | [] => k s
  | a :: p' =>
      match s with
      | c :: r => if N.eqb a c then lit p' k r else None
      | [] => None
      end
  end.

Definition orElse (x y : option A) : option A :=
  match x with Some _ => x | None => y end.

(** [c+] for a character class [c], greedy. *)
Fixpoint plus (cls : N -> bool) (k : jsstring -> option A) (s : jsstring) : option A :=
  match s with
  | c :: r => if cls c then orElse (plus cls k r) (k r) else None
  | [] => None
  end.

(** [(c+)] as a capturing group: the continuation receives the captured
    text and the rest of the input. *)
Fixpoint plusCap (cls : N -> bool) (acc : jsstring)
    (k : jsstring -> jsstring -> option A) (s : jsstring) : option A :=
  match s with
  | c :: r =>
      if cls c
      then orElse (plusCap cls (c :: acc) k r) (k (rev (c :: acc)) r)
      else None
  | [] => None
  end.

End Matchers.

Arguments lit {A} p k s.
Arguments orElse {A} x y.
Arguments plus {A} cls k s.
Arguments plusCap {A} cls acc k s.

(** [$] without the [m] flag: the end of the input. *)
Definition eos (s : jsstring) : option unit :=
  match s with [] => Some tt | _ => None end.

(** [.] *)
Definition dot (c : N) : bool := negb (isLineTerminator c).

(** The end of a pattern that is not anchored: whatever follows matches. *)
Definition accept (s : jsstring) : option unit := Some tt.

(** [$] after a capturing group: the match yields the captured text. *)
Definition eosCap (cap rest : jsstring) : option jsstring :=
  match rest with [] => Some cap | _ => None end.

Definition test (r : option unit) : bool :=
  match r with Some _ => true | None => false end.

End Re.

(** ** [path.basename] of [node:path] (POSIX flavour)

    The final segment of the path; slashes at the end are not part of it.
    The loop of Node runs from the last code unit to the first; here the
    path is read reversed. *)

Module Path.

Definition slash : N := 47.

Fixpoint dropSlashes (r : jsstring) : jsstring :=
  match r with
  | c :: r' => if N.eqb c slash then dropSlashes r' else r
  | [] => []
  end.

Fixpoint takeSegment (r : jsstring) : jsstring :=
  match r with
  | c :: r' => if N.eqb c slash then [] else c :: takeSegment r'
  | [] => []
  end.

Definition basename (p : jsstring) : jsstring :=
  rev (takeSegment (dropSlashes (rev p))).

End Path.

(** ** The guard *)

Module Guard.

(** [BANNED] *)
Definition BANNED : list jsstring :=
  map js [ "enhanced"; "enhance";
           "simple"; "simplified";
           "refactored"; "refactor";
           "optimized"; "optimize";
           "alternate"; "alternative"; "alt";
           "new"; "final"; "updated"; "rewrite";
           "copy"; "backup"; "bak";
           "temp"; "tmp";
           "legacy"; "old" ]%string.

(** [BANNED.has(t)] *)
Definition has (set : list jsstring) (t : jsstring) : bool :=
  existsb (str_eqb t) set.

(** [isVersionToken]: [/^v\d+$/] *)
Definition isVersionToken (t : jsstring) : bool :=
  Re.test (Re.lit (js "v") (Re.plus isDigit Re.eos) t).

(** [basename.replace(/\.[^.]+$/, "")]: the leftmost match is removed, and
    a match always runs to the end of the string. *)
Definition notDot (c : N) : bool := negb (N.eqb c 46).

Fixpoint stripExt (s : jsstring) : jsstring :=
  match s with
  | [] => []
  | c :: r =>
      if Re.test (Re.lit (js ".") (Re.plus notDot Re.eos) s) then []
      else c :: stripExt r
  end.

(** [stem.replace(/([a-z0-9])([A-Z])/g, "$1_$2")]: matches are taken from
    left to right and do not overlap. *)
Fixpoint camelSplit (s : jsstring) : jsstring :=
  match s with
  | a :: r =>
      match r with
      | b :: r' =>
          if isLowerOrDigit a && isUpper b
          then a :: 95 :: b :: camelSplit r'
          else a :: camelSplit r
      | [] => [a]
      end
  | [] => []
  end.

(** [snake.split(/[^a-z0-9]+/)]: the pieces between maximal runs of code
    units outside [a-z0-9]; [inSep] tells that such a run is being read. *)
Fixpoint splitRuns (inSep : bool) (cur : jsstring) (s : jsstring) : list jsstring :=
  match s with
  | [] => [rev cur]
  | c :: r =>
      if isLowerOrDigit c then splitRuns false (c :: cur) r
      else if inSep then splitRuns true [] r
      else rev cur :: splitRuns true [] r
  end.

(** [Boolean] on a string: false for the empty one. *)
Definition truthy (s : jsstring) : bool :=
  match s with [] => false | _ => true end.

(** [tokenize] *)
Definition tokenize (basename : jsstring) : list jsstring :=
  let stem := stripExt basename in
  let snake := toLowerCase (camelSplit stem) in
  filter truthy (splitRuns false [] snake).

(** [shouldBlockPath] *)
Definition shouldBlockPath (filePath : jsstring) : bool :=
  let base := Path.basename filePath in
  let tokens := tokenize base in
  existsb (fun t => has BANNED t || isVersionToken t) tokens.

(** *** The patch scanner *)

(** [/^diff --git a\/.+ b\/(.+)$/.test(line)] *)
Definition headerRe (line : jsstring) : bool :=
  Re.test (Re.lit (js "diff --git a/")
            (Re.plus Re.dot (Re.lit (js " b/") (Re.plus Re.dot Re.eos))) line).

(** [/^new file mode /.test(line)] *)
Definition newFileRe (line : jsstring) : bool :=
  Re.test (Re.lit (js "new file mode ") Re.accept line).

(** [/^---\s+\/dev\/null$/.test(line)] *)
Definition devNullRe (line : jsstring) : bool :=
  Re.test (Re.lit (js "---") (Re.plus isSpace (Re.lit (js "/dev/null") Re.eos)) line).

(** [/^\+\+\+\s+b\/(.+)$/.exec(line)], reduced to its group [m[1]]. *)
Definition plusRe (line : jsstring) : option jsstring :=
  Re.lit (js "+++")
    (Re.plus isSpace (Re.lit (js "b/") (Re.plusCap Re.dot [] Re.eosCap))) line.

(** [out.add(p)] on a [Set], which iterates in insertion order. *)
Definition add (out : list jsstring) (p : jsstring) : list jsstring :=
  if has out p then out else out ++ [p].

(** [lines[i]] *)
Definition line_at (lines : list jsstring) (i : nat) : jsstring := nth i lines [].

(** The indices [from], ..., [Math.min(bound, lines.length) - 1]. *)
Definition upto (lines : list jsstring) (from bound : nat) : list nat :=
  seq from (Nat.min bound (List.length lines) - from)%nat.

(** [for (let k = j; k < Math.min(j + 6, lines.length); k++)] *)
Definition collect (lines : list jsstring) (j : nat) (out : list jsstring)
  : list jsstring :=
  fold_left
    (fun out k =>
       match plusRe (line_at lines k) with
       | Some p => add out p
       | None => out
       end)
    (upto lines j (j + 6)%nat) out.

(** The body of [for (let j = i + 1; j < Math.min(i + 8, lines.length); j++)],
    over the indices still to visit; either marker ends the loop. *)
Fixpoint lookAhead (lines : list jsstring) (todo : list nat) (out : list jsstring)
  : list jsstring :=
  match todo with
  | [] => out
  | j :: rest =>
      if newFileRe (line_at lines j) then collect lines j out
      else if devNullRe (line_at lines j) then collect lines j out
      else lookAhead lines rest out
  end.

(** [parseNewFilesFromPatch] *)
Definition parseNewFilesFromPatch (patchText : value) : list jsstring :=
  match patchText with
  | VString text =>
      let lines := split 10 text in
      fold_left
        (fun out i =>
           if headerRe (line_at lines i)
           then lookAhead lines (upto lines (i + 1)%nat (i + 8)%nat) out
           else out)
        (seq 0 (List.length lines)) []
  | _ => []
  end.

(** *** Effects of the hook

    A run yields the calls it made, in order, and how it completed: normally
    or with a thrown [Error], of which the message is kept.  [Classified] is
    a ghost event that marks each call of [shouldBlockPath] by the hook;
    [ShowToast] marks a call of the sink [client.tui.showToast]. *)

Inductive event : Type :=
| Classified (p : jsstring)
| ShowToast (message variant : jsstring).

Inductive completion (A : Type) : Type :=
| Normal (a : A)
| Throw (e : jsstring).
Arguments Normal {A} a.
Arguments Throw {A} e.

Definition M (A : Type) : Type := (list event * completion A)%type.

Definition ret {A} (a : A) : M A := ([], Normal a).

Definition bind {A B} (m : M A) (f : A -> M B) : M B :=
  match m with
  | (t, Normal a) => let (t', r) := f a in (t ++ t', r)
  | (t, Throw e) => (t, Throw e)
  end.

Definition emit (ev : event) : M unit := ([ev], Normal tt).

Definition throw {A} (e : jsstring) : M A := ([], Throw e).

(** [try { m } catch (_) { h }] *)
Definition tryCatch {A} (m : M A) (h : jsstring -> M A) : M A :=
  match m with
  | (t, Throw e) => let (t', r) := h e in (t ++ t', r)
  | _ => m
  end.

Notation "x <- m ;; k" := (bind m (fun x => k))
  (at level 61, m at next level, right associativity).
Notation "m ;;; k" := (bind m (fun _ => k))
  (at level 61, right associativity).

(** [for (const p of xs) body(p)]; a throw leaves the loop. *)
Fixpoint forOf {A} (xs : list A) (body : A -> M unit) : M unit :=
  match xs with
  | [] => ret tt
  | x :: rest => body x ;;; forOf rest body
  end.

(** What [client.tui.showToast(...)] comes to on a host: the function is
    called and returns; it is called and throws, or the promise it returns
    is rejected; or there is nothing to call ([client.tui] or
    [client.tui.showToast] is missing) and the call expression throws a
    [TypeError] before any call is made. *)
Inductive sink : Type :=
| Delivered
| Faulted (e : jsstring)
| Unsupported (e : jsstring).

Section Plugin.

(** The [client] the host hands to the plugin. *)
Variable client : jsstring -> sink.

(** [await client.tui.showToast({ message, variant })]; the event marks
    the call itself. *)
Definition showToast (message variant : jsstring) : M unit :=
  match client message with
  | Delivered => emit (ShowToast message variant)
  | Faulted e => emit (ShowToast message variant) ;;; throw e
  | Unsupported e => throw e
  end.

(** The text of the rejection. *)
Definition msg (filePath via : jsstring) : jsstring :=
  [10060] ++ js " Rejected " ++ via ++ js " for " ++ [34] ++ filePath
  ++ [34] ++ js ". "
  ++ js "This project enforces a single source of truth" ++ [8212]
  ++ js "update the existing file "
  ++ js "instead of creating a variant (e.g., "
  ++ [8220] ++ js "enhanced" ++ [8221] ++ js ", "
  ++ [8220] ++ js "simple" ++ [8221] ++ js ", "
  ++ [8220] ++ js "v2" ++ [8221] ++ js "). "
  ++ js "Please produce an in-place edit or a patch that updates the original.".

(** [reject] *)
Definition reject (filePath via : jsstring) : M unit :=
  tryCatch (showToast (msg filePath via) (js "error")) (fun _ => ret tt) ;;;
  throw (msg filePath via).

(** [shouldBlockPath] as the hook calls it. *)
Definition classify (p : jsstring) : M bool :=
  emit (Classified p) ;;; ret (shouldBlockPath p).

(** ["tool.execute.before"] *)
Definition tool_execute_before (input output : value) : M unit :=
  let tool := optGet input (js "tool") in
  (if strictEqStr tool (js "write") then
     let p := nullish (optGet (optGet output (js "args")) (js "filePath"))
                      (optGet (optGet output (js "args")) (js "path")) in
     match p with
     | VString s =>
         b <- classify s ;;
         if b then reject s (js "write") else ret tt
     | _ => ret tt
     end
   else ret tt) ;;;
  (if strictEqStr tool (js "patch") then
     let patchText := nullish (optGet (optGet output (js "args")) (js "patch"))
                              (optGet (optGet output (js "args")) (js "content")) in
     let newFiles := parseNewFilesFromPatch patchText in
     forOf newFiles (fun p =>
       b <- classify p ;;
       if b then reject p (js "patch(add)") else ret tt)
   else ret tt).

End Plugin.

End Guard.

Import Guard.

(** * The vocabulary of the properties *)

(** ** Tokens, extensions and boundaries of a name *)

Module ClassifierSpec.

(** The version-token pattern: the letter [v] and then one or more decimal
    digits. *)
Definition VersionToken (t : jsstring) : Prop :=
  exists ds, ds <> [] /\ Forall (fun c => 48 <= c <= 57) ds /\ t = 118 :: ds.

(** A code unit in [a-z0-9]. *)
Definition alnum (c : N) : Prop := 97 <= c <= 122 \/ 48 <= c <= 57.

(** A token of a string: a maximal non-empty run of code units in
    [a-z0-9]. *)
Definition Token (t w : jsstring) : Prop :=
  t <> [] /\ Forall alnum t /\
  exists pre post, w = pre ++ t ++ post
    /\ (pre = [] \/ exists pre' c, pre = pre' ++ [c] /\ ~ alnum c)
    /\ (post = [] \/ exists c post', post = c :: post' /\ ~ alnum c).

(** The normalized basename, before it is cut into tokens. *)
Definition normalized (p : jsstring) : jsstring :=
  toLowerCase (camelSplit (stripExt (Path.basename p))).

(** An extension: a dot and then one or more code units that are not dots. *)
Definition Extension (x : jsstring) : Prop :=
  exists e, x = 46 :: e /\ e <> [] /\ Forall (fun c => c <> 46) e.

(** A boundary: a code unit in [a-z0-9] right before one in [A-Z]. *)
Definition Boundary (s : jsstring) : Prop :=
  exists pre a b post,
    s = pre ++ a :: b :: post /\ isLowerOrDigit a = true /\ isUpper b = true.

(** A code unit in [A-Z0-9]. *)
Definition upperOrDigit (c : N) : bool := isUpper c || isDigit c.

(** A single segment of a path. *)
Definition NoSlash (s : jsstring) : Prop := ~ In Path.slash s.

(** A code unit in [A-Z]. *)
Definition upper (c : N) : Prop := 65 <= c <= 90.

(** The basename of a path: its last segment that is not empty.  The path
    is a directory part, which is empty or ends in a slash, then the
    basename, which has no slash, then slashes only; a path of slashes
    only has the empty basename.  For a path that does not end in a slash
    this is what follows the last slash; slashes at the end are not part
    of the name, as [path.basename] has it. *)
Definition Basename (p base : jsstring) : Prop :=
  NoSlash base /\
  exists dir trail,
    p = dir ++ base ++ trail
    /\ Forall (fun c => c = 47) trail
    /\ (dir = [] \/ exists d, dir = d ++ [47])
    /\ (base = [] -> dir = []).

(** The stem of a name: the name without its final extension, or the name
    itself when no suffix of it is an extension. *)
Definition Stem (base stem : jsstring) : Prop :=
  (exists x, Extension x /\ base = stem ++ x)
  \/ (stem = base /\ forall s x, base = s ++ x -> ~ Extension x).

(** A stem with an underscore put in at each camelCase boundary: after a
    code unit in [a-z0-9] that stands right before one in [A-Z], and
    nowhere else. *)
Inductive BoundarySplit : jsstring -> jsstring -> Prop :=
| split_nil : BoundarySplit [] []
| split_one x : BoundarySplit [x] [x]
| split_boundary x y r w :
    alnum x -> upper y -> BoundarySplit (y :: r) w ->
    BoundarySplit (x :: y :: r) (x :: 95 :: w)
| split_plain x y r w :
    ~ (alnum x /\ upper y) -> BoundarySplit (y :: r) w ->
    BoundarySplit (x :: y :: r) (x :: w).

(** The lower-case form of a string: [A]-[Z] become [a]-[z], U+0130
    becomes [i] and U+0307, the Kelvin sign U+212A becomes [k]; every
    other code unit has a lower-case form outside ASCII, which no token
    can hold, and stands for it. *)
Inductive LowerCase : jsstring -> jsstring -> Prop :=
| lower_nil : LowerCase [] []
| lower_capital c s w :
    upper c -> LowerCase s w -> LowerCase (c :: s) (c + 32 :: w)
| lower_dotted_I s w :
    LowerCase s w -> LowerCase (304 :: s) (105 :: 775 :: w)
| lower_kelvin s w :
    LowerCase s w -> LowerCase (8490 :: s) (107 :: w)
| lower_other c s w :
    ~ upper c -> c <> 304 -> c <> 8490 ->
    LowerCase s w -> LowerCase (c :: s) (c :: w).

(** The normalized basename of a path, step by step: the basename, without
    its extension, with the camelCase boundaries split, in lower case. *)
Definition Normalized (p w : jsstring) : Prop :=
  exists base stem parts,
    Basename p base /\ Stem base stem
    /\ BoundarySplit stem parts /\ LowerCase parts w.

End ClassifierSpec.

(** ** Lines of a diff and what the scan finds in them *)

Module ScannerSpec.

(** The path on a line that is a [+++ b/<path>] header. *)
Definition pathOn (line : jsstring) : list jsstring :=
  match plusRe line with Some p => [p] | None => [] end.

(** The test of both branches of the look-ahead. *)
Definition marker (line : jsstring) : bool := newFileRe line || devNullRe line.

(** The paths found from the marker at line [j]. *)
Definition hits (lines : list jsstring) (j : nat) : list jsstring :=
  flat_map (fun k => pathOn (line_at lines k)) (upto lines j (j + 6)%nat).

(** The paths found from the header at line [i]. *)
Definition found (lines : list jsstring) (i : nat) : list jsstring :=
  if headerRe (line_at lines i)
  then match find (fun j => marker (line_at lines j))
                  (upto lines (i + 1)%nat (i + 8)%nat) with
       | Some j => hits lines j
       | None => []
       end
  else [].

(** [.+]: a non-empty text without line terminators. *)
Definition Text (s : jsstring) : Prop :=
  s <> [] /\ Forall (fun c => isLineTerminator c = false) s.

(** [\s+]: a non-empty run of white space. *)
Definition Blank (s : jsstring) : Prop :=
  s <> [] /\ Forall (fun c => isSpace c = true) s.

(** [diff --git a/<old> b/<new>] *)
Definition IsHeader (line : jsstring) : Prop :=
  exists old new,
    line = js "diff --git a/" ++ old ++ js " b/" ++ new /\ Text old /\ Text new.

(** [new file mode ...] *)
Definition IsNewFileMode (line : jsstring) : Prop :=
  exists rest, line = js "new file mode " ++ rest.

(** [--- /dev/null] *)
Definition IsDevNull (line : jsstring) : Prop :=
  exists ws, line = js "---" ++ ws ++ js "/dev/null" /\ Blank ws.

(** Either marker of a new file. *)
Definition IsMarker (line : jsstring) : Prop :=
  IsNewFileMode line \/ IsDevNull line.

(** [+++ b/<path>]: the line names the new side [path]. *)
Definition NewSide (line path : jsstring) : Prop :=
  exists ws, line = js "+++" ++ ws ++ js "b/" ++ path /\ Blank ws /\ Text path.

(** Line [j] is the first marker among the seven lines after line [i]. *)
Definition FirstMarker (lines : list jsstring) (i j : nat) : Prop :=
  (i < j < Nat.min (i + 8) (List.length lines))%nat
  /\ IsMarker (line_at lines j)
  /\ forall j', (i < j' < j)%nat -> ~ IsMarker (line_at lines j').

(** [path] is named by a [+++ b/] line among the six lines that start at
    the first marker after a per-file header. *)
Definition Added (lines : list jsstring) (path : jsstring) : Prop :=
  exists i j k,
    (i < List.length lines)%nat /\ IsHeader (line_at lines i)
    /\ FirstMarker lines i j
    /\ (j <= k < Nat.min (j + 6) (List.length lines))%nat
    /\ NewSide (line_at lines k) path.

(** Lines joined by line feeds, as a diff is written. *)
Definition unlines (ls : list jsstring) : jsstring :=
  match ls with
  | [] => []
  | l :: rest => l ++ flat_map (fun x => 10 :: x) rest
  end.

(** The block of a diff that adds the file [p] with one line in it. *)
Definition newFileBlock (p : jsstring) : list jsstring :=
  [ js "diff --git a/" ++ p ++ js " b/" ++ p;
    js "new file mode 100644";
    js "index 0000000..e69de29";
    js "--- /dev/null";
    js "+++ b/" ++ p;
    js "@@ -0,0 +1 @@";
    js "+x = 1" ].

(** The diff that adds the files [ps], one block after the other. *)
Definition newFileDiff (ps : list jsstring) : value :=
  VString (unlines (flat_map newFileBlock ps)).

(** A text that fits on one line. *)
Definition NoLF (l : jsstring) : Prop := ~ In 10 l.

End ScannerSpec.

(** ** Tool calls and runs of the hook *)

Module HookSpec.

(** [sub] occurs in [s]. *)
Definition Contains (sub s : jsstring) : Prop :=
  exists pre post, s = pre ++ sub ++ post.

(** The body of both loops of the hook: classify, and reject when flagged. *)
Definition check (client : jsstring -> sink) (via p : jsstring) : M unit :=
  b <- classify p ;; if b then reject client p via else ret tt.

(** [output?.args?.filePath ?? output?.args?.path] *)
Definition pathArg (output : value) : value :=
  nullish (optGet (optGet output (js "args")) (js "filePath"))
          (optGet (optGet output (js "args")) (js "path")).

(** [output?.args?.patch ?? output?.args?.content] *)
Definition patchArg (output : value) : value :=
  nullish (optGet (optGet output (js "args")) (js "patch"))
          (optGet (optGet output (js "args")) (js "content")).

(** Three hosts: one whose sink works, one whose sink always faults, and
    one that has no sink to call. *)
Definition workingClient : jsstring -> sink := fun _ => Delivered.

Definition faultyClient : jsstring -> sink :=
  fun _ => Faulted (js "toast failed").

Definition brokenClient : jsstring -> sink :=
  fun _ => Unsupported (js "client.tui.showToast is not a function").

(** The sink calls that a rejection with the text [message] makes on a
    host: one, or none when the host has no sink to call. *)
Definition sinkCalls (client : jsstring -> sink) (message : jsstring)
  : list event :=
  match client message with
  | Unsupported _ => []
  | _ => [ShowToast message (js "error")]
  end.

(** The sink calls that go with a completion: those of the rejection
    thrown, none for a normal return. *)
Definition afterwards (client : jsstring -> sink) (r : completion unit)
  : list event :=
  match r with
  | Normal _ => []
  | Throw e => sinkCalls client e
  end.

(** The sink calls of a trace, and the rest of it. *)
Definition isToast (ev : event) : bool :=
  match ev with ShowToast _ _ => true | Classified _ => false end.

Definition calls (t : list event) : list event := filter isToast t.

Definition classifications (t : list event) : list event :=
  filter (fun ev => negb (isToast ev)) t.

(** The first argument of the hook: [{tool: kind}]. *)
Definition toolCall (kind : jsstring) : value :=
  VObject [(js "tool", VString kind)].

(** The second argument of the hook: [{args: {...}}]. *)
Definition withArgs (props : list (jsstring * value)) : value :=
  VObject [(js "args", VObject props)].

End HookSpec.

(** ** Stems, separators and texts with line endings *)

Module MoreSpec.

(** [tokenize] after its first line: the tokens of a stem. *)
Definition stemTokens (stem : jsstring) : list jsstring :=
  filter truthy (splitRuns false [] (toLowerCase (camelSplit stem))).

(** A separator: a code unit that is no ASCII letter or digit and does not
    become one in lower case. *)
Definition separator (c : N) : bool :=
  negb (isLowerOrDigit c) && negb (isUpper c)
  && negb (N.eqb c 304) && negb (N.eqb c 8490).

(** The separator that goes after [x] when [r] follows. *)
Definition gap (x : N) (r : jsstring) : jsstring :=
  match r with
  | y :: _ => if isLowerOrDigit x && isUpper y then [95] else []
  | [] => []
  end.

(** A word the classifier looks for. *)
Definition Flagging (w : jsstring) : Prop :=
  In w BANNED \/ ClassifierSpec.VersionToken w.

(** [W] spells the word [w]: as it is, or with its first letter in upper
    case. *)
Definition Spelled (W w : jsstring) : Prop :=
  W = w \/ exists l ws, w = l :: ws /\ W = (l - 32) :: ws.

(** What can come in front of a word: nothing, or a separator. *)
Definition StartsWord (pre : jsstring) : Prop :=
  pre = [] \/ exists pre' c, pre = pre' ++ [c] /\ separator c = true.

(** What can come after a word: nothing, a separator, or a letter in
    upper case. *)
Definition EndsWord (post : jsstring) : Prop :=
  post = [] \/
  exists c post', post = c :: post' /\ (separator c = true \/ isUpper c = true).

(** A text whose lines all end in carriage return and line feed. *)
Definition crlfText (ls : list jsstring) : jsstring :=
  flat_map (fun l => l ++ [13; 10]) ls.



(** [v] is [null] or [undefined]. *)
Definition isNullish (v : value) : bool :=
  match v with VUndefined | VNull => true | _ => false end.

End MoreSpec.

(** * Properties *)

(** ** Strings and matchers *)

Module StrFacts.

Lemma str_eqb_eq (s t : jsstring) : str_eqb s t = true <-> s = t.
Proof.
  revert t; induction s as [|a s IH]; intros [|b t]; simpl; split;
    try congruence; try reflexivity.
  - intros H. apply andb_true_iff in H as [Hab Hst].
    apply N.eqb_eq in Hab. apply IH in Hst. congruence.
  - intros H. injection H as -> ->.
    rewrite N.eqb_refl. simpl. now apply IH.
Qed.

Lemma str_eqb_refl (s : jsstring) : str_eqb s s = true.
Proof. now apply str_eqb_eq. Qed.

Lemma has_In (set : list jsstring) (t : jsstring) : has set t = true <-> In t set.
Proof.
  unfold has. rewrite existsb_exists. split.
  - intros (x & Hx & E). apply str_eqb_eq in E. now subst.
  - intros H. exists t. split; [assumption | apply str_eqb_refl].
Qed.

Lemma has_false_not_In (set : list jsstring) (t : jsstring) :
  has set t = false <-> ~ In t set.
Proof.
  rewrite <- has_In. destruct (has set t); split; congruence.
Qed.

(** [c+$] succeeds exactly on a non-empty run of the class. *)
Lemma plus_eos (cls : N -> bool) (s : jsstring) :
  Re.test (Re.plus cls Re.eos s) = true <-> s <> [] /\ forallb cls s = true.
Proof.
  induction s as [|c r IH]; simpl.
  - split; [discriminate | intros [H _]; now elim H].
  - destruct (cls c); simpl.
    + destruct r as [|d r'].
      * simpl. split; [intros _; split; [discriminate | reflexivity] | reflexivity].
      * destruct (Re.plus cls Re.eos (d :: r')) as [[]|] eqn:E; simpl in *.
        -- split; [intros _ | reflexivity].
           split; [discriminate | now apply IH].
        -- split; [discriminate | intros [_ H]].
           apply IH. split; [discriminate | assumption].
    + split; [discriminate | intros [_ H]; discriminate].
Qed.

(** A literal prefix: the matcher goes on after it, or fails. *)
Lemma lit_app (A : Type) (p : jsstring) (k : jsstring -> option A) (s : jsstring) :
  Re.lit p k (p ++ s) = k s.
Proof.
  induction p as [|a p IH]; simpl; [reflexivity|].
  now rewrite N.eqb_refl.
Qed.

Lemma lit_Some (A : Type) (p : jsstring) (k : jsstring -> option A)
      (s : jsstring) (x : A) :
  Re.lit p k s = Some x <-> exists r, s = p ++ r /\ k r = Some x.
Proof.
  revert s; induction p as [|a p IH]; intros s; simpl.
  - split; [intros H; now exists s | intros (r & -> & H); exact H].
  - destruct s as [|c s].
    + split; [discriminate | intros (r & E & _); discriminate].
    + destruct (N.eqb a c) eqn:E.
      * apply N.eqb_eq in E; subst c. rewrite IH. split.
        -- intros (r & -> & H). now exists r.
        -- intros (r & E & H). injection E as ->. now exists r.
      * apply N.eqb_neq in E. split; [discriminate|].
        intros (r & E' & _). injection E' as E'. congruence.
Qed.

End StrFacts.

(** ** The classifier *)

Module Classifier.

Import ClassifierSpec.

Import StrFacts.

Lemma between_spec (lo hi c : N) : between lo hi c = true <-> lo <= c <= hi.
Proof.
  unfold between. rewrite andb_true_iff, !N.leb_le. tauto.
Qed.

Lemma isDigit_spec (c : N) : isDigit c = true <-> 48 <= c <= 57.
Proof. apply between_spec. Qed.

Lemma isLowerOrDigit_spec (c : N) : isLowerOrDigit c = true <-> alnum c.
Proof.
  unfold isLowerOrDigit, isLower, isDigit, alnum.
  rewrite orb_true_iff, !between_spec. tauto.
Qed.

Lemma isLowerOrDigit_false (c : N) : isLowerOrDigit c = false <-> ~ alnum c.
Proof.
  rewrite <- isLowerOrDigit_spec. destruct (isLowerOrDigit c); split; congruence.
Qed.

Lemma forallb_Forall_iff (P : N -> Prop) (f : N -> bool) (s : jsstring) :
  (forall c, f c = true <-> P c) -> forallb f s = true <-> Forall P s.
Proof.
  intros H. rewrite forallb_forall, Forall_forall.
  split; intros K x Hx; apply H, K, Hx.
Qed.

Lemma isVersionToken_spec (t : jsstring) :
  isVersionToken t = true <-> VersionToken t.
Proof.
  unfold isVersionToken, VersionToken.
  destruct (Re.lit (js "v") (Re.plus isDigit Re.eos) t) as [[]|] eqn:E; simpl.
  - apply lit_Some in E as (r & -> & H).
    assert (K : Re.test (Re.plus isDigit Re.eos r) = true) by now rewrite H.
    apply plus_eos in K as [Hne Hd].
    split; [intros _ | reflexivity].
    exists r. repeat split; try assumption.
    now apply (forallb_Forall_iff _ isDigit r isDigit_spec).
  - split; [discriminate|]. intros (ds & Hne & Hd & ->).
    change (118 :: ds) with (js "v" ++ ds) in E. rewrite lit_app in E.
    assert (K : Re.test (Re.plus isDigit Re.eos ds) = true).
    { apply plus_eos. split; [assumption|].
      now apply (forallb_Forall_iff _ isDigit ds isDigit_spec). }
    now rewrite E in K.
Qed.

(** *** Tokens are the maximal runs of [a-z0-9] *)

Lemma edge_of_run_nil (pre : jsstring) :
  Forall alnum pre ->
  (pre = [] \/ exists pre' c, pre = pre' ++ [c] /\ ~ alnum c) -> pre = [].
Proof.
  intros Hall [H | (pre' & c & -> & Hc)]; [assumption|].
  apply Forall_app in Hall as [_ Hc']. inversion Hc'; subst. contradiction.
Qed.

Lemma start_of_run_nil (post : jsstring) :
  Forall alnum post ->
  (post = [] \/ exists c post', post = c :: post' /\ ~ alnum c) -> post = [].
Proof.
  intros Hall [H | (c & post' & -> & Hc)]; [assumption|].
  inversion Hall; subst. contradiction.
Qed.

(** Where a run can sit in [a ++ c :: r], for a run [a] and a separator [c]. *)
Lemma run_position (a r pre t post : jsstring) (c : N) :
  Forall alnum a -> ~ alnum c ->
  a ++ c :: r = pre ++ t ++ post ->
  t <> [] -> Forall alnum t ->
  (pre = [] \/ exists pre' d, pre = pre' ++ [d] /\ ~ alnum d) ->
  (post = [] \/ exists d post', post = d :: post' /\ ~ alnum d) ->
  t = a \/ exists l, pre = a ++ c :: l /\ r = l ++ t ++ post.
Proof.
  intros Ha Hc E Hne Ht Hpre Hpost.
  apply app_eq_app in E as [l [[Ea El] | [Ea El]]].
  - (* the run starts inside [a] *)
    left. subst a. apply Forall_app in Ha as [Hp Hl].
    rewrite (edge_of_run_nil pre Hp Hpre) in *. simpl in *.
    apply app_eq_app in El as [m [[Et Em] | [Et Em]]].
    + subst t. destruct m as [|x m]; [now rewrite app_nil_r|].
      exfalso. simpl in Em. injection Em as <- _.
      apply Forall_app in Ht as [_ Hm]. inversion Hm; subst. contradiction.
    + subst l. apply Forall_app in Hl as [_ Hm].
      destruct m as [|x m]; [now rewrite app_nil_r|].
      exfalso. destruct Hpost as [-> | (d & post' & -> & Hd)]; [discriminate|].
      simpl in Em. injection Em as -> _. inversion Hm; subst. contradiction.
  - (* the run starts after [a] *)
    destruct l as [|x l]; simpl in El.
    + exfalso. destruct t as [|y t]; [now apply Hne|].
      simpl in El. injection El as <- _. inversion Ht; subst. contradiction.
    + injection El as <- El. right. now exists l.
Qed.

Lemma Token_after_separator (a r t : jsstring) (c : N) :
  Forall alnum a -> ~ alnum c ->
  Token t (a ++ c :: r) <-> (t = a /\ a <> []) \/ Token t r.
Proof.
  intros Ha Hc. split.
  - intros (Hne & Ht & pre & post & E & Hpre & Hpost).
    destruct (run_position a r pre t post c Ha Hc E Hne Ht Hpre Hpost)
      as [-> | (l & -> & ->)].
    + left. now split.
    + right. split; [assumption|]. split; [assumption|].
      exists l, post. split; [reflexivity|]. split; [|assumption].
      destruct l as [|x l] using rev_ind; [now left|]. right.
      destruct Hpre as [Hnil | (pre' & d & E' & Hd)].
      * destruct a; discriminate.
      * change (a ++ c :: l ++ [x]) with (a ++ (c :: l) ++ [x]) in E'.
        rewrite app_assoc in E'. apply app_inj_tail in E' as [_ ->].
        now exists l, d.
  - intros [[-> Hne] | (Hne & Ht & pre & post & -> & Hpre & Hpost)].
    + split; [assumption|]. split; [assumption|].
      exists [], (c :: r). split; [reflexivity|]. split; [now left|].
      right. now exists c, r.
    + split; [assumption|]. split; [assumption|].
      exists (a ++ c :: pre), post. split.
      * now rewrite <- app_assoc.
      * split; [|assumption]. right.
        destruct Hpre as [-> | (pre' & d & -> & Hd)].
        -- now exists a, c.
        -- exists (a ++ c :: pre'), d. split; [|assumption].
           now rewrite <- app_assoc.
Qed.

Lemma Token_of_run (a t : jsstring) :
  Forall alnum a -> Token t a <-> t = a /\ a <> [].
Proof.
  intros Ha. split.
  - intros (Hne & Ht & pre & post & -> & Hpre & Hpost).
    apply Forall_app in Ha as [Hp Ha]. apply Forall_app in Ha as [_ Hq].
    rewrite (edge_of_run_nil pre Hp Hpre), (start_of_run_nil post Hq Hpost).
    simpl. rewrite app_nil_r. now split.
  - intros [-> Hne]. split; [assumption|]. split; [assumption|].
    exists [], []. rewrite app_nil_r. split; [reflexivity|]. split; now left.
Qed.

Lemma splitRuns_Token (s cur : jsstring) (inSep : bool) (t : jsstring) :
  Forall alnum cur -> (inSep = true -> cur = []) -> t <> [] ->
  In t (splitRuns inSep cur s) <-> Token t (rev cur ++ s).
Proof.
  revert cur inSep; induction s as [|c r IH]; intros cur inSep Hcur Hsep Hne.
  - simpl. rewrite app_nil_r.
    rewrite Token_of_run by now apply Forall_rev.
    split.
    + intros [<- | []]. now split.
    + intros [-> _]. now left.
  - simpl. destruct (isLowerOrDigit c) eqn:Ec.
    + apply isLowerOrDigit_spec in Ec.
      rewrite IH; [|now constructor | discriminate | assumption].
      simpl. now rewrite <- app_assoc.
    + apply isLowerOrDigit_false in Ec.
      rewrite Token_after_separator; [|now apply Forall_rev | assumption].
      destruct inSep.
      * rewrite (Hsep eq_refl). simpl.
        rewrite IH; [|constructor | reflexivity | assumption]. simpl.
        split; [now right|]. intros [[-> _] | H]; [now elim Hne | assumption].
      * simpl. rewrite IH; [|constructor | reflexivity | assumption]. simpl.
        split.
        -- intros [<- | H]; [left; now split | now right].
        -- intros [[-> _] | H]; [now left | now right].
Qed.

(** [tokenize] cut into its steps: the tokens of the normalized name. *)
Lemma tokenize_Token (b t : jsstring) :
  In t (tokenize b) <-> Token t (toLowerCase (camelSplit (stripExt b))).
Proof.
  unfold tokenize. rewrite filter_In. split.
  - intros [Hin Ht].
    apply (splitRuns_Token _ [] false t) in Hin;
      [assumption | constructor | discriminate |].
    intros ->. discriminate.
  - intros H. assert (Hne : t <> []) by apply H. split.
    + apply (splitRuns_Token _ [] false t); [constructor | discriminate | assumption | assumption].
    + destruct t; [now elim Hne | reflexivity].
Qed.

Lemma shouldBlockPath_iff (p : jsstring) :
  shouldBlockPath p = true <->
  exists t, Token t (normalized p) /\ (In t BANNED \/ VersionToken t).
Proof.
  unfold shouldBlockPath, normalized. rewrite existsb_exists.
  split; intros (t & Ht & Hb); exists t.
  - split; [now apply tokenize_Token|].
    apply orb_true_iff in Hb as [Hb | Hb];
      [left; now apply has_In | right; now apply isVersionToken_spec].
  - split; [now apply tokenize_Token|].
    apply orb_true_iff. destruct Hb as [Hb | Hb];
      [left; now apply has_In | right; now apply isVersionToken_spec].
Qed.

(** *** Extension stripping *)

Lemma notDot_spec (c : N) : notDot c = true <-> c <> 46.
Proof.
  unfold notDot. rewrite negb_true_iff. apply N.eqb_neq.
Qed.

Lemma extRe_spec (s : jsstring) :
  Re.test (Re.lit (js ".") (Re.plus notDot Re.eos) s) = true <-> Extension s.
Proof.
  unfold Extension. split.
  - destruct (Re.lit (js ".") (Re.plus notDot Re.eos) s) as [[]|] eqn:E;
      [intros _ | discriminate].
    apply lit_Some in E as (r & -> & H).
    assert (K : Re.test (Re.plus notDot Re.eos r) = true) by now rewrite H.
    apply plus_eos in K as [Hne Hd]. exists r. repeat split; try assumption.
    now apply (forallb_Forall_iff _ notDot r notDot_spec).
  - intros (e & -> & Hne & Hd).
    change (46 :: e) with (js "." ++ e). rewrite lit_app.
    apply plus_eos. split; [assumption|].
    now apply (forallb_Forall_iff _ notDot e notDot_spec).
Qed.

Lemma stripExt_strips (stem x : jsstring) :
  Extension x -> stripExt (stem ++ x) = stem.
Proof.
  intros Hx. induction stem as [|c stem IH].
  - destruct Hx as (e & -> & Hne & Hd). simpl app.
    assert (K : Extension (46 :: e)) by (exists e; now repeat split).
    apply extRe_spec in K. unfold stripExt. now rewrite K.
  - change ((c :: stem) ++ x) with (c :: (stem ++ x)).
    assert (K : Re.test (Re.lit (js ".") (Re.plus notDot Re.eos)
                           (c :: (stem ++ x))) = false).
    { apply not_true_is_false. intros K.
      apply extRe_spec in K as (e & E & _ & Hd). injection E as _ <-.
      destruct Hx as (e' & -> & _). apply Forall_app in Hd as [_ Hd].
      inversion Hd; subst. congruence. }
    simpl stripExt at 1. simpl in K. rewrite K. now rewrite IH.
Qed.

Lemma stripExt_keeps (s : jsstring) :
  (forall stem x, s = stem ++ x -> ~ Extension x) -> stripExt s = s.
Proof.
  induction s as [|c r IH]; intros H; [reflexivity|].
  assert (K : Re.test (Re.lit (js ".") (Re.plus notDot Re.eos) (c :: r)) = false).
  { apply not_true_is_false. intros K. apply extRe_spec in K.
    now apply (H [] (c :: r)). }
  simpl stripExt at 1. simpl in K. rewrite K. f_equal. apply IH.
  intros stem x -> Hx. now apply (H (c :: stem) x).
Qed.

Lemma tokenize_hidden (x : jsstring) : Extension x -> tokenize x = [].
Proof.
  intros Hx. unfold tokenize.
  rewrite <- (app_nil_l x) at 1. now rewrite stripExt_strips.
Qed.

(** C4, as the code has it: extension stripping removes exactly the final
    suffix made of a dot and one or more non-dot code units, and nothing
    when the name has no such suffix (so "archive.tar.gz" loses only
    ".gz", and a name with no dot is unchanged); a basename that is
    nothing but such a suffix is stripped whole, so that ".env" has no
    token at all and ".tmp" is not flagged. *)
Theorem C4_stripExt_final_suffix_hidden_names_empty :
  (forall stem x, Extension x -> stripExt (stem ++ x) = stem)
  /\ (forall s, (forall stem x, s = stem ++ x -> ~ Extension x) -> stripExt s = s)
  /\ (forall s, ~ In 46 s -> stripExt s = s)
  /\ stripExt (js "archive.tar.gz") = js "archive.tar"
  /\ (forall x, Extension x -> tokenize x = [])
  /\ tokenize (js ".env") = []
  /\ shouldBlockPath (js ".tmp") = false.
Proof.
  split; [exact stripExt_strips|].
  split; [exact stripExt_keeps|].
  split.
  { intros s Hs. apply stripExt_keeps. intros stem x -> (e & -> & _).
    apply Hs. apply in_or_app. right. now left. }
  split; [reflexivity|].
  split; [exact tokenize_hidden|].
  split; reflexivity.
Qed.

Lemma C4_witness :
  Extension (js ".gz") /\ stripExt (js "archive.tar" ++ js ".gz") = js "archive.tar".
Proof.
  assert (H : Extension (js ".gz")).
  { exists (js "gz"). split; [reflexivity|]. split; [discriminate|].
    repeat constructor; discriminate. }
  split; [exact H|].
  exact (proj1 C4_stripExt_final_suffix_hidden_names_empty (js "archive.tar") (js ".gz") H).
Defined.

(** C4, as the specification words it, fails: ".env" does not tokenize to
    the single token "env" but to no token, and ".tmp" is not flagged. *)
Lemma C4_counterexample :
  tokenize (js ".env") <> [js "env"]
  /\ tokenize (js ".env") = []
  /\ shouldBlockPath (js ".tmp") <> true.
Proof.
  repeat split; vm_compute; discriminate.
Qed.

(** *** camelCase boundaries *)

Lemma camelSplit_no_boundary (s : jsstring) : ~ Boundary s -> camelSplit s = s.
Proof.
  induction s as [|a r IH]; intros H; [reflexivity|].
  destruct r as [|b r']; [reflexivity|].
  assert (E : isLowerOrDigit a && isUpper b = false).
  { apply not_true_is_false. intros E. apply andb_true_iff in E as [Ea Eb].
    apply H. now exists [], a, b, r'. }
  change (camelSplit (a :: b :: r'))
    with (if isLowerOrDigit a && isUpper b
          then a :: 95 :: b :: camelSplit r'
          else a :: camelSplit (b :: r')).
  rewrite E. f_equal. apply IH.
  intros (pre & x & y & post & E' & Hx & Hy). apply H.
  exists (a :: pre), x, y, post. simpl. now rewrite E'.
Qed.

Lemma upper_run_no_boundary (s : jsstring) :
  Forall (fun c => isUpper c = true) s -> ~ Boundary s.
Proof.
  intros Hs (pre & a & b & post & -> & Ha & _).
  apply Forall_app in Hs as [_ Hs]. inversion Hs as [|? ? Hu _]; subst.
  unfold isLowerOrDigit, isLower, isDigit, isUpper, between in *.
  apply andb_true_iff in Hu as [H1 H2]. apply N.leb_le in H1, H2.
  apply orb_true_iff in Ha as [Ha | Ha];
    apply andb_true_iff in Ha as [H3 H4]; apply N.leb_le in H3, H4; lia.
Qed.

Lemma stripExt_no_dot (s : jsstring) : ~ In 46 s -> stripExt s = s.
Proof.
  intros Hs. apply stripExt_keeps. intros stem x -> (e & -> & _).
  apply Hs. apply in_or_app. right. now left.
Qed.

(** A run of [a-z0-9] is its own only piece. *)
Lemma splitRuns_run (w cur : jsstring) :
  forallb isLowerOrDigit w = true -> splitRuns false cur w = [rev cur ++ w].
Proof.
  revert cur; induction w as [|c w IH]; intros cur H; simpl.
  - now rewrite app_nil_r.
  - simpl in H. apply andb_true_iff in H as [Hc Hw]. rewrite Hc.
    rewrite IH by assumption. simpl. now rewrite <- app_assoc.
Qed.

Lemma lowerUnit_upperOrDigit (c : N) :
  upperOrDigit c = true ->
  exists c', lowerUnit c = [c'] /\ isLowerOrDigit c' = true.
Proof.
  unfold upperOrDigit, lowerUnit, isLowerOrDigit, isLower, isUpper, isDigit, between.
  intros H. destruct (N.leb 65 c && N.leb c 90) eqn:Eu.
  - exists (c + 32). split; [reflexivity|].
    apply andb_true_iff in Eu as [H1 H2]. apply N.leb_le in H1, H2.
    apply orb_true_iff. left. apply andb_true_iff. split; apply N.leb_le; lia.
  - simpl in H. apply andb_true_iff in H as [H1 H2].
    pose proof H1 as H1'. pose proof H2 as H2'. apply N.leb_le in H1', H2'.
    destruct (N.eqb c 304) eqn:E1; [apply N.eqb_eq in E1; lia|].
    destruct (N.eqb c 8490) eqn:E2; [apply N.eqb_eq in E2; lia|].
    exists c. split; [reflexivity|]. now rewrite H1, H2, orb_true_r.
Qed.

Lemma toLowerCase_upperOrDigit (s : jsstring) :
  forallb upperOrDigit s = true ->
  forallb isLowerOrDigit (toLowerCase s) = true
  /\ (s <> [] -> toLowerCase s <> []).
Proof.
  induction s as [|c s IH]; intros H; [split; [reflexivity | tauto]|].
  simpl in H. apply andb_true_iff in H as [Hc Hs].
  destruct (lowerUnit_upperOrDigit c Hc) as (c' & E & Hc').
  unfold toLowerCase in *. simpl. rewrite E. simpl. rewrite Hc'.
  split; [now apply IH | discriminate].
Qed.

(** A name of upper-case letters and digits without a boundary is a single
    token: its lower-case form. *)
Lemma tokenize_upper_compound (s : jsstring) :
  s <> [] -> forallb upperOrDigit s = true -> ~ Boundary s ->
  tokenize s = [toLowerCase s].
Proof.
  intros Hne Hs Hb. unfold tokenize.
  rewrite stripExt_no_dot.
  - rewrite camelSplit_no_boundary by assumption.
    destruct (toLowerCase_upperOrDigit s Hs) as [Hall Hnz].
    rewrite splitRuns_run by assumption. simpl.
    destruct (toLowerCase s); [now elim (Hnz Hne) | reflexivity].
  - intros K. rewrite forallb_forall in Hs. specialize (Hs 46 K). discriminate.
Qed.

(** C10: the camelCase split adds a separator only at a boundary, so a
    name without one is left as it is; a stem of upper-case letters and
    digits without a boundary, and so every stem all in upper case, is one
    token; "PARSERV2.md" is the one token "parserv2" and is not flagged,
    while "ParserV2.md" and "ENHANCED.md" are flagged. *)
Theorem C10_uppercase_compound_is_one_token :
  (forall s, ~ Boundary s -> camelSplit s = s)
  /\ (forall s, s <> [] -> forallb upperOrDigit s = true -> ~ Boundary s ->
                tokenize s = [toLowerCase s])
  /\ (forall s, s <> [] -> Forall (fun c => isUpper c = true) s ->
                tokenize s = [toLowerCase s])
  /\ tokenize (js "PARSERV2.md") = [js "parserv2"]
  /\ shouldBlockPath (js "PARSERV2.md") = false
  /\ tokenize (js "ParserV2.md") = [js "parser"; js "v2"]
  /\ shouldBlockPath (js "ParserV2.md") = true
  /\ tokenize (js "ENHANCED.md") = [js "enhanced"]
  /\ shouldBlockPath (js "ENHANCED.md") = true.
Proof.
  split; [exact camelSplit_no_boundary|].
  split; [exact tokenize_upper_compound|].
  split.
  { intros s Hne Hs. apply tokenize_upper_compound; [assumption | |].
    - apply forallb_forall. rewrite Forall_forall in Hs. intros c Hc.
      unfold upperOrDigit. now rewrite (Hs c Hc).
    - now apply upper_run_no_boundary. }
  repeat split; vm_compute; reflexivity.
Qed.

Lemma C10_witness :
  js "PARSERV2" <> [] /\ forallb upperOrDigit (js "PARSERV2") = true
  /\ ~ Boundary (js "PARSERV2")
  /\ tokenize (js "PARSERV2") = [toLowerCase (js "PARSERV2")].
Proof.
  assert (H1 : js "PARSERV2" <> []) by discriminate.
  assert (H2 : forallb upperOrDigit (js "PARSERV2") = true) by reflexivity.
  assert (H3 : ~ Boundary (js "PARSERV2")).
  { intros (pre & a & b & post & E & Ha & Hb). cbv in E.
    do 8 (destruct pre as [|? pre];
          [ simpl in E;
            first [ discriminate E
                  | injection E as <- <- _; vm_compute in Ha, Hb; discriminate ]
          | simpl in E; injection E as _ E ]).
    destruct pre; discriminate. }
  split; [exact H1|]. split; [exact H2|]. split; [exact H3|].
  exact (proj1 (proj2 C10_uppercase_compound_is_one_token) _ H1 H2 H3).
Defined.

(** *** Only the basename counts *)

Lemma takeSegment_NoSlash (r : jsstring) : NoSlash (Path.takeSegment r).
Proof.
  unfold NoSlash. induction r as [|c r IH]; simpl; [tauto|].
  destruct (N.eqb c Path.slash) eqn:E; simpl; [tauto|].
  apply N.eqb_neq in E. intros [H | H]; [congruence | tauto].
Qed.

Lemma takeSegment_id (r : jsstring) : NoSlash r -> Path.takeSegment r = r.
Proof.
  unfold NoSlash. induction r as [|c r IH]; simpl; intros H; [reflexivity|].
  destruct (N.eqb c Path.slash) eqn:E.
  - apply N.eqb_eq in E. tauto.
  - f_equal. apply IH. tauto.
Qed.

Lemma takeSegment_app (r rest : jsstring) :
  NoSlash r -> Path.takeSegment (r ++ Path.slash :: rest) = r.
Proof.
  unfold NoSlash. induction r as [|c r IH]; simpl; intros H.
  - reflexivity.
  - destruct (N.eqb c Path.slash) eqn:E.
    + apply N.eqb_eq in E. tauto.
    + f_equal. apply IH. tauto.
Qed.

Lemma dropSlashes_id (r : jsstring) : NoSlash r -> Path.dropSlashes r = r.
Proof.
  unfold NoSlash. destruct r as [|c r]; simpl; intros H; [reflexivity|].
  destruct (N.eqb c Path.slash) eqn:E; [|reflexivity].
  apply N.eqb_eq in E. tauto.
Qed.

Lemma dropSlashes_app (r rest : jsstring) :
  NoSlash r -> r <> [] -> Path.dropSlashes (r ++ rest) = r ++ rest.
Proof.
  unfold NoSlash. destruct r as [|c r]; simpl; intros H Hne; [now elim Hne|].
  destruct (N.eqb c Path.slash) eqn:E; [|reflexivity].
  apply N.eqb_eq in E. tauto.
Qed.

Lemma NoSlash_rev (s : jsstring) : NoSlash s -> NoSlash (rev s).
Proof. unfold NoSlash. intros H K. apply H. now apply in_rev. Qed.

Lemma basename_NoSlash (p : jsstring) : NoSlash (Path.basename p).
Proof. apply NoSlash_rev, takeSegment_NoSlash. Qed.

(** A name without a slash is its own basename. *)
Lemma basename_of_name (b : jsstring) : NoSlash b -> Path.basename b = b.
Proof.
  intros H. unfold Path.basename.
  rewrite dropSlashes_id, takeSegment_id by now apply NoSlash_rev.
  apply rev_involutive.
Qed.

Lemma basename_idempotent (p : jsstring) :
  Path.basename (Path.basename p) = Path.basename p.
Proof. apply basename_of_name, basename_NoSlash. Qed.

(** Directories in front of a name do not change the basename. *)
Lemma basename_in_dir (dir b : jsstring) :
  NoSlash b -> b <> [] -> Path.basename (dir ++ Path.slash :: b) = b.
Proof.
  intros H Hne. unfold Path.basename.
  rewrite rev_app_distr. simpl. rewrite <- app_assoc. simpl.
  rewrite dropSlashes_app.
  - rewrite takeSegment_app by now apply NoSlash_rev. apply rev_involutive.
  - now apply NoSlash_rev.
  - intros E. apply Hne. rewrite <- (rev_involutive b), E. reflexivity.
Qed.

(** C8: the classification of a path is that of its basename; paths with
    the same basename are classified alike; a banned word in a directory
    in front of the name changes nothing, and "backup/utils.js" is not
    flagged.  The classifier is a function of the path string alone. *)
Theorem C8_classification_depends_on_basename_only :
  (forall p, shouldBlockPath p = shouldBlockPath (Path.basename p))
  /\ (forall p q, Path.basename p = Path.basename q ->
                  shouldBlockPath p = shouldBlockPath q)
  /\ (forall dir b, NoSlash b -> b <> [] ->
                    shouldBlockPath (dir ++ Path.slash :: b) = shouldBlockPath b)
  /\ shouldBlockPath (js "backup/utils.js") = false
  /\ shouldBlockPath (js "utils.js") = false.
Proof.
  split.
  { intros p. unfold shouldBlockPath. now rewrite basename_idempotent. }
  split.
  { intros p q H. unfold shouldBlockPath. now rewrite H. }
  split.
  { intros dir b H Hne. unfold shouldBlockPath.
    now rewrite basename_in_dir, basename_of_name. }
  split; reflexivity.
Qed.

Lemma C8_witness :
  Path.basename (js "backup/utils.js") = Path.basename (js "src/lib/utils.js")
  /\ shouldBlockPath (js "backup/utils.js") = shouldBlockPath (js "src/lib/utils.js").
Proof.
  assert (H : Path.basename (js "backup/utils.js")
              = Path.basename (js "src/lib/utils.js")) by reflexivity.
  split; [exact H|].
  exact (proj1 (proj2 C8_classification_depends_on_basename_only)
           (js "backup/utils.js") (js "src/lib/utils.js") H).
Defined.

End Classifier.

(** ** The patch scanner *)

Module Scanner.

Import ScannerSpec.

Import StrFacts.

(** *** The set under insertion *)

Lemma In_add (out : list jsstring) (p q : jsstring) :
  In q (add out p) <-> In q out \/ q = p.
Proof.
  unfold add. destruct (has out p) eqn:E.
  - apply has_In in E. split; [now left | intros [H | ->]; assumption].
  - rewrite in_app_iff. simpl. split.
    + intros [H | [H | []]]; [now left | now right].
    + intros [H | ->]; [now left | right; now left].
Qed.

Lemma NoDup_add (out : list jsstring) (p : jsstring) :
  NoDup out -> NoDup (add out p).
Proof.
  intros H. unfold add. destruct (has out p) eqn:E; [assumption|].
  apply has_false_not_In in E.
  apply NoDup_rev in H. rewrite <- (rev_involutive (out ++ [p])).
  apply NoDup_rev. rewrite rev_app_distr. simpl. constructor; [|assumption].
  intros K. apply E. now apply in_rev.
Qed.

Lemma In_addAll (l out : list jsstring) (q : jsstring) :
  In q (fold_left add l out) <-> In q out \/ In q l.
Proof.
  revert out; induction l as [|p l IH]; intros out; simpl; [tauto|].
  rewrite IH, In_add. split.
  - intros [[H | ->] | H]; [now left | right; now left | right; now right].
  - intros [H | [<- | H]]; [left; now left | left; now right | now right].
Qed.

Lemma NoDup_addAll (l out : list jsstring) :
  NoDup out -> NoDup (fold_left add l out).
Proof.
  revert out; induction l as [|p l IH]; intros out H; simpl; [assumption|].
  now apply IH, NoDup_add.
Qed.

(** *** The loops as sets of candidates *)

Lemma collect_hits (lines : list jsstring) (j : nat) (out : list jsstring) :
  collect lines j out = fold_left add (hits lines j) out.
Proof.
  unfold collect, hits. generalize (upto lines j (j + 6)%nat) as ks.
  intros ks; revert out; induction ks as [|k ks IH]; intros out; simpl;
    [reflexivity|].
  rewrite fold_left_app, IH. unfold pathOn.
  now destruct (plusRe (line_at lines k)).
Qed.

Lemma lookAhead_find (lines : list jsstring) (todo : list nat) (out : list jsstring) :
  lookAhead lines todo out =
  match find (fun j => marker (line_at lines j)) todo with
  | Some j => collect lines j out
  | None => out
  end.
Proof.
  induction todo as [|j rest IH]; simpl; [reflexivity|].
  unfold marker at 1.
  destruct (newFileRe (line_at lines j)); simpl; [reflexivity|].
  destruct (devNullRe (line_at lines j)); simpl; [reflexivity|].
  exact IH.
Qed.

Lemma scan_found (text : jsstring) :
  parseNewFilesFromPatch (VString text) =
  fold_left add
    (flat_map (found (split 10 text)) (seq 0 (List.length (split 10 text)))) [].
Proof.
  unfold parseNewFilesFromPatch.
  generalize (seq 0 (List.length (split 10 text))) as idx.
  generalize (@nil jsstring) as out. generalize (split 10 text) as lines.
  intros lines out idx; revert out; induction idx as [|i idx IH]; intros out;
    simpl; [reflexivity|].
  rewrite fold_left_app, IH. f_equal. unfold found.
  destruct (headerRe (line_at lines i)); [|reflexivity].
  rewrite lookAhead_find.
  destruct (find _ _); [apply collect_hits | reflexivity].
Qed.

(** The first index of a range that satisfies a test. *)
Lemma find_seq (f : nat -> bool) (from len j : nat) :
  find f (seq from len) = Some j <->
  (from <= j < from + len)%nat /\ f j = true
  /\ forall j', (from <= j' < j)%nat -> f j' = false.
Proof.
  revert from; induction len as [|len IH]; intros from; simpl.
  - split; [discriminate | intros [H _]; lia].
  - destruct (f from) eqn:E.
    + split.
      * intros H; injection H as <-.
        repeat split; try assumption; intros; lia.
      * intros (Hr & Hj & Hfirst). f_equal.
        destruct (Nat.eq_dec from j) as [|Hne]; [assumption|].
        rewrite (Hfirst from) in E by lia. discriminate.
    + rewrite IH. split.
      * intros (Hr & Hj & Hfirst). repeat split; try lia; try assumption.
        intros j' Hj'. destruct (Nat.eq_dec j' from) as [->|Hne];
          [assumption | apply Hfirst; lia].
      * intros (Hr & Hj & Hfirst).
        assert (from <> j) by (intros ->; congruence).
        repeat split; try lia; try assumption.
        intros j' Hj'. apply Hfirst. lia.
Qed.

(** *** What the four patterns match *)

Lemma test_true (r : option unit) : Re.test r = true <-> r = Some tt.
Proof. destruct r as [[]|]; simpl; split; congruence. Qed.

Lemma lit_test (p : jsstring) (k : jsstring -> option unit) (s : jsstring) :
  Re.test (Re.lit p k s) = true <->
  exists r, s = p ++ r /\ Re.test (k r) = true.
Proof.
  rewrite test_true, lit_Some. split; intros (r & E & H); exists r;
    (split; [assumption | now apply test_true]).
Qed.

Lemma run_of_class (cls : N -> bool) (s : jsstring) :
  forallb cls s = true <-> Forall (fun c => cls c = true) s.
Proof.
  rewrite forallb_forall, Forall_forall. tauto.
Qed.

(** [c+] in front of any continuation: some non-empty run, then the rest. *)
Lemma plus_test (cls : N -> bool) (k : jsstring -> option unit) (s : jsstring) :
  Re.test (Re.plus cls k s) = true <->
  exists ws r, s = ws ++ r /\ ws <> [] /\ forallb cls ws = true
               /\ Re.test (k r) = true.
Proof.
  induction s as [|c s IH]; simpl.
  - split; [discriminate|]. intros (ws & r & E & Hne & _).
    destruct ws; [now elim Hne | discriminate].
  - destruct (cls c) eqn:Ec.
    + split.
      * intros H. destruct (Re.plus cls k s) as [[]|] eqn:Ep; simpl in H.
        -- destruct (proj1 IH eq_refl) as (ws & r & -> & _ & Hws & Hk).
           exists (c :: ws), r. simpl. rewrite Ec.
           repeat split; try assumption. discriminate.
        -- exists [c], s. simpl. rewrite Ec.
           repeat split; try assumption. discriminate.
      * intros (ws & r & E & Hne & Hws & Hk).
        destruct ws as [|c' ws]; [now elim Hne|].
        simpl in E. injection E as <- ->. simpl in Hws.
        apply andb_true_iff in Hws as [_ Hws].
        destruct ws as [|d ws].
        -- simpl. destruct (Re.plus cls k r) as [[]|]; [reflexivity | exact Hk].
        -- assert (K : Re.test (Re.plus cls k ((d :: ws) ++ r)) = true).
           { apply IH. exists (d :: ws), r. repeat split; try assumption.
             discriminate. }
           apply test_true in K. now rewrite K.
    + split; [discriminate|]. intros (ws & r & E & Hne & Hws & _).
      destruct ws as [|c' ws]; [now elim Hne|].
      simpl in E. injection E as <- _. simpl in Hws. rewrite Ec in Hws.
      discriminate.
Qed.

(** [c+] in front of a continuation that refuses to start on the class:
    the run is the whole of what is there, and the result is that of the
    continuation. *)
Lemma plus_Some (A : Type) (cls : N -> bool) (k : jsstring -> option A)
      (s : jsstring) (x : A) :
  (forall c r, cls c = true -> k (c :: r) = None) ->
  Re.plus cls k s = Some x <->
  exists ws r, s = ws ++ r /\ ws <> [] /\ forallb cls ws = true /\ k r = Some x.
Proof.
  intros Hk. induction s as [|c s IH]; simpl.
  - split; [discriminate|]. intros (ws & r & E & Hne & _).
    destruct ws; [now elim Hne | discriminate].
  - destruct (cls c) eqn:Ec.
    + split.
      * intros H. destruct (Re.plus cls k s) as [y|] eqn:Ep; simpl in H.
        -- injection H as ->.
           destruct (proj1 IH eq_refl) as (ws & r & -> & _ & Hws & Hr).
           exists (c :: ws), r. simpl. rewrite Ec.
           repeat split; try assumption. discriminate.
        -- exists [c], s. simpl. rewrite Ec.
           repeat split; try assumption. discriminate.
      * intros (ws & r & E & Hne & Hws & Hr).
        destruct ws as [|c' ws]; [now elim Hne|].
        simpl in E. injection E as <- ->. simpl in Hws.
        apply andb_true_iff in Hws as [_ Hws].
        destruct ws as [|d ws].
        -- simpl. destruct r as [|d r]; [exact Hr|]. simpl.
           destruct (cls d) eqn:Ed; [|exact Hr].
           rewrite (Hk d r Ed) in Hr. discriminate.
        -- assert (K : Re.plus cls k ((d :: ws) ++ r) = Some x).
           { apply IH. exists (d :: ws), r. repeat split; try assumption.
             discriminate. }
           now rewrite K.
    + split; [discriminate|]. intros (ws & r & E & Hne & Hws & _).
      destruct ws as [|c' ws]; [now elim Hne|].
      simpl in E. injection E as <- _. simpl in Hws. rewrite Ec in Hws.
      discriminate.
Qed.

(** [(c+)$]: the whole of the rest, captured. *)
Lemma plusCap_eos (cls : N -> bool) (s acc p : jsstring) :
  Re.plusCap cls acc Re.eosCap s = Some p <->
  s <> [] /\ forallb cls s = true /\ p = rev acc ++ s.
Proof.
  revert acc; induction s as [|c s IH]; intros acc; simpl.
  - split; [discriminate | intros [H _]; now elim H].
  - destruct (cls c) eqn:Ec; simpl.
    + destruct s as [|d s].
      * simpl. split.
        -- intros H; injection H as <-. repeat split. discriminate.
        -- intros (_ & _ & ->). reflexivity.
      * replace (Re.orElse (Re.plusCap cls (c :: acc) Re.eosCap (d :: s))
                           (Re.eosCap (rev acc ++ [c]) (d :: s)))
          with (Re.plusCap cls (c :: acc) Re.eosCap (d :: s))
          by (destruct (Re.plusCap cls (c :: acc) Re.eosCap (d :: s)); reflexivity).
        rewrite IH. simpl rev. rewrite <- app_assoc. simpl.
        split; intros (H1 & H2 & H3); repeat split; try assumption; discriminate.
    + split; [discriminate | intros (_ & H & _); discriminate].
Qed.

Lemma dot_run (s : jsstring) :
  s <> [] /\ forallb Re.dot s = true <-> Text s.
Proof.
  unfold Text. rewrite run_of_class. split; intros [H1 H2]; split;
    try assumption; eapply Forall_impl; try exact H2; unfold Re.dot;
    intros c Hc; [now apply negb_true_iff | now apply negb_true_iff].
Qed.

Lemma space_run (s : jsstring) :
  s <> [] /\ forallb isSpace s = true <-> Blank s.
Proof. unfold Blank. now rewrite run_of_class. Qed.

Lemma headerRe_spec (line : jsstring) : headerRe line = true <-> IsHeader line.
Proof.
  unfold headerRe, IsHeader. rewrite lit_test. split.
  - intros (r & -> & H). apply plus_test in H as (old & r' & -> & Ho1 & Ho2 & H).
    apply lit_test in H as (new & -> & H). apply plus_eos in H.
    exists old, new. split; [reflexivity|]. split; now apply dot_run.
  - intros (old & new & -> & Hold & Hnew). apply dot_run in Hold as [Ho1 Ho2].
    exists (old ++ js " b/" ++ new). split; [reflexivity|].
    apply plus_test. exists old, (js " b/" ++ new).
    repeat split; try assumption. apply lit_test. exists new.
    split; [reflexivity|]. apply plus_eos. now apply dot_run.
Qed.

Lemma newFileRe_spec (line : jsstring) :
  newFileRe line = true <-> IsNewFileMode line.
Proof.
  unfold newFileRe, IsNewFileMode. rewrite lit_test. split.
  - intros (r & -> & _). now exists r.
  - intros (r & ->). now exists r.
Qed.

Lemma devNullRe_spec (line : jsstring) : devNullRe line = true <-> IsDevNull line.
Proof.
  unfold devNullRe, IsDevNull. rewrite lit_test. split.
  - intros (r & -> & H). apply plus_test in H as (ws & r' & -> & Hw1 & Hw2 & H).
    apply lit_test in H as (e & -> & H). destruct e; [|discriminate].
    exists ws. split; [reflexivity|]. now apply space_run.
  - intros (ws & -> & Hws). apply space_run in Hws as [Hw1 Hw2].
    exists (ws ++ js "/dev/null"). split; [reflexivity|].
    apply plus_test. exists ws, (js "/dev/null"). repeat split; try assumption.
Qed.

Lemma marker_spec (line : jsstring) : marker line = true <-> IsMarker line.
Proof.
  unfold marker, IsMarker.
  now rewrite orb_true_iff, newFileRe_spec, devNullRe_spec.
Qed.

Lemma plusRe_spec (line path : jsstring) :
  plusRe line = Some path <-> NewSide line path.
Proof.
  unfold plusRe, NewSide. rewrite lit_Some.
  assert (Hk : forall c r, isSpace c = true ->
             Re.lit (js "b/") (Re.plusCap Re.dot [] Re.eosCap) (c :: r) = None).
  { intros c r Hc.
    destruct (Re.lit (js "b/") (Re.plusCap Re.dot [] Re.eosCap) (c :: r))
      as [y|] eqn:E; [|reflexivity].
    apply lit_Some in E as (q & E & _). injection E as -> _. discriminate. }
  split.
  - intros (r & -> & H).
    apply (plus_Some _ isSpace _ r path Hk) in H as (ws & r' & -> & Hw1 & Hw2 & H).
    apply lit_Some in H as (q & -> & H). apply plusCap_eos in H as (Hq1 & Hq2 & ->).
    exists ws. split; [reflexivity|]. split; [now apply space_run|].
    now apply dot_run.
  - intros (ws & -> & Hws & Hp). apply space_run in Hws as [Hw1 Hw2].
    apply dot_run in Hp as [Hp1 Hp2].
    exists (ws ++ js "b/" ++ path). split; [reflexivity|].
    apply (plus_Some _ isSpace _ _ path Hk). exists ws, (js "b/" ++ path).
    repeat split; try assumption. apply lit_Some. exists path.
    split; [reflexivity|]. apply plusCap_eos. now repeat split.
Qed.

(** *** Which paths the scan returns *)

Lemma In_upto (lines : list jsstring) (from bound k : nat) :
  In k (upto lines from bound) <->
  (from <= k < Nat.min bound (List.length lines))%nat.
Proof. unfold upto. rewrite in_seq. lia. Qed.

Lemma In_pathOn (line p : jsstring) : In p (pathOn line) <-> NewSide line p.
Proof.
  rewrite <- plusRe_spec. unfold pathOn. destruct (plusRe line) as [q|]; simpl.
  - split; [intros [-> | []]; reflexivity | intros H; injection H as ->; now left].
  - split; [tauto | discriminate].
Qed.

Lemma In_hits (lines : list jsstring) (j : nat) (p : jsstring) :
  In p (hits lines j) <->
  exists k, (j <= k < Nat.min (j + 6) (List.length lines))%nat
            /\ NewSide (line_at lines k) p.
Proof.
  unfold hits. rewrite in_flat_map.
  split; intros (k & Hk & H); exists k.
  - split; [now apply In_upto | now apply In_pathOn].
  - split; [now apply In_upto | now apply In_pathOn].
Qed.

Lemma find_marker (lines : list jsstring) (i j : nat) :
  find (fun j => marker (line_at lines j)) (upto lines (i + 1)%nat (i + 8)%nat)
  = Some j <-> FirstMarker lines i j.
Proof.
  unfold upto, FirstMarker. rewrite find_seq, marker_spec. split.
  - intros (Hr & Hm & Hfirst). split; [lia|]. split; [assumption|].
    intros j' Hj' K. apply marker_spec in K.
    rewrite Hfirst in K by lia. discriminate.
  - intros (Hr & Hm & Hfirst). split; [lia|]. split; [assumption|].
    intros j' Hj'. apply not_true_is_false. intros K.
    apply marker_spec in K. apply (Hfirst j'); [lia | assumption].
Qed.

Lemma In_found (lines : list jsstring) (i : nat) (p : jsstring) :
  In p (found lines i) <->
  IsHeader (line_at lines i) /\
  exists j k, FirstMarker lines i j
              /\ (j <= k < Nat.min (j + 6) (List.length lines))%nat
              /\ NewSide (line_at lines k) p.
Proof.
  unfold found. destruct (headerRe (line_at lines i)) eqn:Eh.
  - apply headerRe_spec in Eh.
    destruct (find _ _) as [j|] eqn:Ef.
    + apply find_marker in Ef. rewrite In_hits. split.
      * intros (k & Hk & Hp). split; [assumption|]. now exists j, k.
      * intros (_ & j' & k & Hj' & Hk & Hp).
        apply find_marker in Hj'. apply find_marker in Ef.
        rewrite Ef in Hj'. injection Hj' as <-. now exists k.
    + split; [intros [] | intros (_ & j & k & Hj & _)].
      apply find_marker in Hj. rewrite Ef in Hj. discriminate.
  - split; [intros [] | intros (H & _)].
    apply headerRe_spec in H. congruence.
Qed.

Lemma scan_Added (text p : jsstring) :
  In p (parseNewFilesFromPatch (VString text)) <-> Added (split 10 text) p.
Proof.
  rewrite scan_found, In_addAll, in_flat_map. unfold Added. split.
  - intros [[] | (i & Hi & H)]. apply in_seq in Hi. apply In_found in H.
    destruct H as (Hh & j & k & Hj & Hk & Hp). exists i, j, k.
    repeat split; try assumption; try lia; apply Hj || apply Hk.
  - intros (i & j & k & Hi & Hh & Hj & Hk & Hp). right. exists i.
    split; [apply in_seq; lia|]. apply In_found. split; [assumption|].
    now exists j, k.
Qed.

Lemma scan_NoDup (v : value) : NoDup (parseNewFilesFromPatch v).
Proof.
  destruct v; try constructor. rewrite scan_found. apply NoDup_addAll. constructor.
Qed.

(** *** Diffs that add files, block by block *)

Lemma splitAt_line (l cur rest : jsstring) :
  NoLF l -> splitAt 10 cur (l ++ rest) = splitAt 10 (rev l ++ cur) rest.
Proof.
  unfold NoLF. revert cur; induction l as [|c l IH]; intros cur H; [reflexivity|].
  simpl. destruct (N.eqb c 10) eqn:E.
  - apply N.eqb_eq in E. exfalso. apply H. now left.
  - rewrite IH by (intros K; apply H; now right).
    now rewrite <- app_assoc.
Qed.

(** Cutting at the line feeds gives back the lines that were joined. *)
Lemma split_unlines (l : jsstring) (ls : list jsstring) :
  Forall NoLF (l :: ls) -> split 10 (unlines (l :: ls)) = l :: ls.
Proof.
  unfold split. revert l; induction ls as [|l' ls IH]; intros l H;
    inversion H as [|? ? Hl Hls]; subst.
  - simpl. rewrite app_nil_r.
    rewrite <- (app_nil_r l) at 1. rewrite splitAt_line by assumption.
    simpl. now rewrite app_nil_r, rev_involutive.
  - simpl. rewrite splitAt_line by assumption. simpl.
    rewrite app_nil_r, rev_involutive. f_equal. now apply IH.
Qed.

Lemma Text_NoLF (p : jsstring) : Text p -> NoLF p.
Proof.
  intros [_ H] K. rewrite Forall_forall in H. specialize (H 10 K). discriminate.
Qed.

Lemma NoLF_app (a b : jsstring) : NoLF a -> NoLF b -> NoLF (a ++ b).
Proof. unfold NoLF. intros Ha Hb K. apply in_app_or in K. tauto. Qed.

Lemma NoLF_js (lit : jsstring) : forallb (fun c => negb (N.eqb c 10)) lit = true -> NoLF lit.
Proof.
  intros H K. rewrite forallb_forall in H. specialize (H 10 K). discriminate.
Qed.

Lemma newFileBlock_NoLF (p : jsstring) : Text p -> Forall NoLF (newFileBlock p).
Proof.
  intros Hp. apply Text_NoLF in Hp. unfold newFileBlock.
  repeat constructor;
    repeat (apply NoLF_app; try assumption); now apply NoLF_js.
Qed.

Lemma blocks_NoLF (ps : list jsstring) :
  Forall Text ps -> Forall NoLF (flat_map newFileBlock ps).
Proof.
  induction 1 as [|p ps Hp _ IH]; cbn [flat_map]; [constructor|].
  apply Forall_app. split; [now apply newFileBlock_NoLF | assumption].
Qed.

Lemma blocks_length (ps : list jsstring) :
  List.length (flat_map newFileBlock ps) = (7 * List.length ps)%nat.
Proof.
  induction ps as [|p ps IH]; [reflexivity|].
  cbn [flat_map]. rewrite length_app, IH. simpl List.length. lia.
Qed.

(** Line [r] of block [m]. *)
Lemma line_of_block (ps : list jsstring) (m r : nat) :
  (m < List.length ps)%nat -> (r < 7)%nat ->
  line_at (flat_map newFileBlock ps) (7 * m + r)
  = nth r (newFileBlock (nth m ps [])) [].
Proof.
  unfold line_at. revert m; induction ps as [|p ps IH]; intros m Hm Hr;
    [simpl in Hm; lia|].
  cbn [flat_map]. destruct m as [|m].
  - rewrite app_nth1 by (simpl; lia). reflexivity.
  - replace (7 * S m + r)%nat
      with (List.length (newFileBlock p) + (7 * m + r))%nat
      by (simpl List.length; lia).
    rewrite app_nth2_plus. apply IH; [simpl in Hm; lia | assumption].
Qed.

Lemma Forall_nth_Text (ps : list jsstring) (m : nat) :
  Forall Text ps -> (m < List.length ps)%nat -> Text (nth m ps []).
Proof.
  intros H Hm. rewrite Forall_forall in H. apply H. now apply nth_In.
Qed.

Lemma seq_add (n a b : nat) : seq (a + b) n = map (Nat.add a) (seq b n).
Proof.
  revert b; induction n as [|n IH]; intros b; [reflexivity|].
  simpl. f_equal. rewrite <- IH. f_equal. lia.
Qed.

Lemma header_line (p : jsstring) :
  Text p -> IsHeader (js "diff --git a/" ++ p ++ js " b/" ++ p).
Proof. intros Hp. now exists p, p. Qed.

Lemma plus_line (p : jsstring) : Text p -> pathOn (js "+++ b/" ++ p) = [p].
Proof.
  intros Hp. unfold pathOn.
  assert (H : plusRe (js "+++ b/" ++ p) = Some p).
  { apply plusRe_spec. exists (js " "). split; [reflexivity|].
    split; [|assumption]. split; [discriminate | repeat constructor]. }
  now rewrite H.
Qed.

(** The header of block [m] yields the path of that block. *)
Lemma found_at_header (ps : list jsstring) (m : nat) :
  Forall Text ps -> (m < List.length ps)%nat ->
  found (flat_map newFileBlock ps) (7 * m) = [nth m ps []].
Proof.
  intros Hps Hm. pose proof (Forall_nth_Text ps m Hps Hm) as Hp.
  set (L := flat_map newFileBlock ps).
  assert (Hline : forall r, (r < 7)%nat ->
            line_at L (7 * m + r) = nth r (newFileBlock (nth m ps [])) [])
    by (intros r Hr; now apply line_of_block).
  unfold found.
  replace (7 * m)%nat with (7 * m + 0)%nat at 1 by lia.
  rewrite Hline by lia.
  assert (Hh : headerRe (nth 0 (newFileBlock (nth m ps [])) []) = true)
    by (apply headerRe_spec; now apply header_line).
  rewrite Hh.
  assert (Hf : find (fun j => marker (line_at L j))
                    (upto L (7 * m + 1) (7 * m + 8)) = Some (7 * m + 1)%nat).
  { apply find_marker. unfold FirstMarker, L. rewrite blocks_length.
    split; [lia|]. split; [|intros; lia].
    fold L. rewrite Hline by lia. left. now exists (js "100644"). }
  rewrite Hf. unfold hits, upto. unfold L at 2. rewrite blocks_length.
  replace (Nat.min (7 * m + 1 + 6) (7 * List.length ps) - (7 * m + 1))%nat
    with 6%nat by lia.
  rewrite seq_add. cbn [seq map flat_map].
  rewrite !Hline by lia. cbn [nth newFileBlock].
  rewrite plus_line by assumption. reflexivity.
Qed.

(** No other line of a block is a header. *)
Lemma found_at_other (ps : list jsstring) (m r : nat) :
  (m < List.length ps)%nat -> (1 <= r < 7)%nat ->
  found (flat_map newFileBlock ps) (7 * m + r) = [].
Proof.
  intros Hm Hr. unfold found. rewrite line_of_block by lia.
  do 7 (destruct r as [|r]; [try lia; reflexivity|]). lia.
Qed.

Lemma found_in_block (ps : list jsstring) (m : nat) :
  Forall Text ps -> (m < List.length ps)%nat ->
  flat_map (found (flat_map newFileBlock ps)) (seq (7 * m) 7) = [nth m ps []].
Proof.
  intros Hps Hm.
  replace (7 * m)%nat with (7 * m + 0)%nat at 1 by lia.
  rewrite seq_add. cbn [seq map flat_map].
  replace (7 * m + 0)%nat with (7 * m)%nat by lia.
  rewrite found_at_header by assumption.
  now rewrite !found_at_other by lia.
Qed.

Lemma firstn_snoc (ps : list jsstring) (n : nat) :
  (n < List.length ps)%nat -> firstn (S n) ps = firstn n ps ++ [nth n ps []].
Proof.
  revert n; induction ps as [|p ps IH]; intros n Hn; [simpl in Hn; lia|].
  destruct n as [|n]; [reflexivity|].
  rewrite firstn_cons, IH by (simpl in Hn; lia). reflexivity.
Qed.

Lemma found_in_blocks (ps : list jsstring) (n : nat) :
  Forall Text ps -> (n <= List.length ps)%nat ->
  flat_map (found (flat_map newFileBlock ps)) (seq 0 (7 * n)) = firstn n ps.
Proof.
  intros Hps. induction n as [|n IH]; intros Hn; [reflexivity|].
  replace (7 * S n)%nat with (7 * n + 7)%nat by lia.
  rewrite seq_app, flat_map_app, IH by lia. rewrite Nat.add_0_l.
  rewrite found_in_block by (assumption || lia).
  now rewrite firstn_snoc by lia.
Qed.

(** The scan of a diff made of new-file blocks gives back the paths of the
    blocks, in their order, each one once. *)
Lemma scan_newFileDiff (ps : list jsstring) :
  Forall Text ps ->
  parseNewFilesFromPatch (newFileDiff ps) = fold_left add ps [].
Proof.
  intros Hps. unfold newFileDiff. rewrite scan_found.
  destruct ps as [|p ps]; [reflexivity|].
  assert (E : split 10 (unlines (flat_map newFileBlock (p :: ps)))
              = flat_map newFileBlock (p :: ps)).
  { pose proof (blocks_NoLF (p :: ps) Hps) as H.
    remember (flat_map newFileBlock (p :: ps)) as L eqn:EL.
    destruct L as [|l ls]; [simpl in EL; discriminate EL|].
    now apply split_unlines. }
  rewrite E, blocks_length, found_in_blocks by (assumption || lia).
  now rewrite firstn_all.
Qed.

Lemma addAll_NoDup (ps out : list jsstring) :
  NoDup (out ++ ps) -> fold_left add ps out = out ++ ps.
Proof.
  revert out; induction ps as [|p ps IH]; intros out H; simpl;
    [now rewrite app_nil_r|].
  assert (Hp : has out p = false).
  { apply has_false_not_In. intros K. apply NoDup_remove_2 in H.
    apply H. apply in_or_app. now left. }
  unfold add. rewrite Hp. rewrite IH; rewrite <- app_assoc; [reflexivity | exact H].
Qed.

(** C3: the scan returns exactly the paths named by a [+++ b/<path>] line
    among the six lines that start at the first [new file mode] or
    [--- /dev/null] marker found in the seven lines after a
    [diff --git a/<old> b/<new>] header; the path is what follows [b/];
    no path is returned twice.  A diff made of new-file blocks yields the
    paths of its blocks, each one once, in the order of the blocks; the
    diff that adds "new_enhanced.py" and "normal.py" yields those two. *)
Theorem C3_scan_returns_new_side_paths :
  (forall text p,
      In p (parseNewFilesFromPatch (VString text)) <-> Added (split 10 text) p)
  /\ (forall v, NoDup (parseNewFilesFromPatch v))
  /\ (forall ps, Forall Text ps ->
                 parseNewFilesFromPatch (newFileDiff ps) = fold_left add ps [])
  /\ (forall ps, Forall Text ps -> NoDup ps ->
                 parseNewFilesFromPatch (newFileDiff ps) = ps)
  /\ parseNewFilesFromPatch (newFileDiff [js "new_enhanced.py"; js "normal.py"])
     = [js "new_enhanced.py"; js "normal.py"]
  /\ parseNewFilesFromPatch (newFileDiff [js "normal.py"; js "new_enhanced.py"])
     = [js "normal.py"; js "new_enhanced.py"]
  /\ parseNewFilesFromPatch
       (newFileDiff [js "normal.py"; js "new_enhanced.py"; js "normal.py"])
     = [js "normal.py"; js "new_enhanced.py"].
Proof.
  split; [exact scan_Added|].
  split; [exact scan_NoDup|].
  split; [exact scan_newFileDiff|].
  split.
  { intros ps Hps Hnd. rewrite scan_newFileDiff by assumption.
    now apply (addAll_NoDup ps []). }
  repeat split; vm_compute; reflexivity.
Qed.

Lemma C3_witness :
  Forall Text [js "src/new_enhanced.py"; js "normal.py"]
  /\ NoDup [js "src/new_enhanced.py"; js "normal.py"]
  /\ parseNewFilesFromPatch (newFileDiff [js "src/new_enhanced.py"; js "normal.py"])
     = [js "src/new_enhanced.py"; js "normal.py"].
Proof.
  assert (H1 : Forall Text [js "src/new_enhanced.py"; js "normal.py"]).
  { repeat constructor; discriminate. }
  assert (H2 : NoDup [js "src/new_enhanced.py"; js "normal.py"]).
  { repeat constructor; simpl; intuition discriminate. }
  split; [exact H1|]. split; [exact H2|].
  exact (proj1 (proj2 (proj2 (proj2 C3_scan_returns_new_side_paths))) _ H1 H2).
Defined.

(** *** Inputs that are not diffs *)

Lemma flat_map_nil (A B : Type) (f : A -> list B) (l : list A) :
  (forall x, In x l -> f x = []) -> flat_map f l = [].
Proof.
  induction l as [|x l IH]; intros H; simpl; [reflexivity|].
  rewrite (H x) by now left. apply IH. intros y Hy. apply H. now right.
Qed.

Lemma scan_no_header (text : jsstring) :
  (forall line, In line (split 10 text) -> ~ IsHeader line) ->
  parseNewFilesFromPatch (VString text) = [].
Proof.
  intros H. rewrite scan_found, flat_map_nil; [reflexivity|].
  intros i Hi. apply in_seq in Hi. unfold found.
  destruct (headerRe (line_at (split 10 text) i)) eqn:E; [|reflexivity].
  apply headerRe_spec in E. exfalso. apply (H (line_at (split 10 text) i)).
  - apply nth_In. lia.
  - assumption.
Qed.

Lemma scan_from_lines (text p : jsstring) :
  In p (parseNewFilesFromPatch (VString text)) ->
  exists line, In line (split 10 text) /\ NewSide line p.
Proof.
  intros H. apply scan_Added in H as (i & j & k & _ & _ & _ & Hk & Hp).
  exists (line_at (split 10 text) k). split; [|assumption].
  apply nth_In. lia.
Qed.

(** C7: for an input that is not a string the scan returns the empty set;
    for a string without any per-file header it returns the empty set, and
    for any string it returns only paths written on [+++ b/] lines of that
    string.  The scan is a total function into sets: every index it reads
    is within the lines, and it has no failing step. *)
Theorem C7_scan_of_non_diff_input_is_empty :
  (forall v, isString v = false -> parseNewFilesFromPatch v = [])
  /\ (forall text,
         (forall line, In line (split 10 text) -> ~ IsHeader line) ->
         parseNewFilesFromPatch (VString text) = [])
  /\ (forall text p,
         In p (parseNewFilesFromPatch (VString text)) ->
         exists line, In line (split 10 text) /\ NewSide line p)
  /\ (forall lines from bound k,
         In k (upto lines from bound) -> (k < List.length lines)%nat).
Proof.
  split.
  { intros v H. destruct v; try reflexivity. discriminate. }
  split; [exact scan_no_header|].
  split; [exact scan_from_lines|].
  intros lines from bound k H. apply In_upto in H. lia.
Qed.

Lemma C7_witness :
  isString (VNumber 7) = false /\ parseNewFilesFromPatch (VNumber 7) = [].
Proof.
  split; [reflexivity|].
  exact (proj1 C7_scan_of_non_diff_input_is_empty (VNumber 7) eq_refl).
Defined.

End Scanner.

(** ** The hook *)

Module Hook.

Import HookSpec.

Import StrFacts.

Lemma msg_contains_path (p via : jsstring) : Contains p (msg p via).
Proof.
  unfold Contains, msg.
  exists ([10060] ++ js " Rejected " ++ via ++ js " for " ++ [34]).
  eexists. rewrite <- !app_assoc. reflexivity.
Qed.

Lemma msg_contains_tool (p via : jsstring) : Contains via (msg p via).
Proof.
  unfold Contains, msg.
  exists ([10060] ++ js " Rejected "). eexists.
  rewrite <- !app_assoc. reflexivity.
Qed.

(** One call of the sink, then the throw, whatever the sink did. *)
Lemma reject_run (client : jsstring -> sink) (p via : jsstring) :
  reject client p via = (sinkCalls client (msg p via), Throw (msg p via)).
Proof.
  unfold reject, showToast, sinkCalls, tryCatch, bind, emit, throw, ret.
  destruct (client (msg p via)); reflexivity.
Qed.

(** On a host that has a sink, a rejection calls it once. *)
Lemma sinkCalls_supported (client : jsstring -> sink) (m : jsstring) :
  (forall e, client m <> Unsupported e) ->
  sinkCalls client m = [ShowToast m (js "error")].
Proof.
  intros H. unfold sinkCalls. destruct (client m) as [| e | e];
    try reflexivity. now elim (H e).
Qed.

Lemma check_clean (client : jsstring -> sink) (via p : jsstring) :
  shouldBlockPath p = false -> check client via p = ([Classified p], Normal tt).
Proof.
  intros H. unfold check, classify, bind, emit, ret. now rewrite H.
Qed.

Lemma check_flagged (client : jsstring -> sink) (via p : jsstring) :
  shouldBlockPath p = true ->
  check client via p
  = (Classified p :: sinkCalls client (msg p via), Throw (msg p via)).
Proof.
  intros H. unfold check, classify, bind, emit, ret. rewrite H.
  now rewrite reject_run.
Qed.

Lemma forOf_clean (client : jsstring -> sink) (via : jsstring) (files : list jsstring) :
  Forall (fun p => shouldBlockPath p = false) files ->
  forOf files (check client via) = (map Classified files, Normal tt).
Proof.
  induction files as [|p files IH]; intros H; [reflexivity|].
  inversion H as [|? ? Hp Hrest]; subst. simpl forOf.
  rewrite (check_clean client via p Hp). unfold bind. now rewrite (IH Hrest).
Qed.

Lemma forOf_first_flagged (client : jsstring -> sink) (via : jsstring)
      (pre : list jsstring) (p : jsstring) (post : list jsstring) :
  Forall (fun q => shouldBlockPath q = false) pre ->
  shouldBlockPath p = true ->
  forOf (pre ++ p :: post) (check client via)
  = (map Classified pre ++ Classified p :: sinkCalls client (msg p via),
     Throw (msg p via)).
Proof.
  induction pre as [|q pre IH]; intros Hpre Hp.
  - simpl. now rewrite (check_flagged client via p Hp).
  - inversion Hpre as [|? ? Hq Hrest]; subst. simpl.
    rewrite (check_clean client via q Hq). unfold bind at 1.
    now rewrite (IH Hrest Hp).
Qed.

Lemma strictEqStr_true (v : value) (lit : jsstring) :
  strictEqStr v lit = true <-> v = VString lit.
Proof.
  destruct v; simpl; try (split; [discriminate | congruence]).
  rewrite str_eqb_eq. split; congruence.
Qed.

Lemma hook_write (client : jsstring -> sink) (input output : value) :
  strictEqStr (optGet input (js "tool")) (js "write") = true ->
  tool_execute_before client input output =
  match pathArg output with
  | VString s => check client (js "write") s
  | _ => ret tt
  end.
Proof.
  intros H. unfold tool_execute_before. rewrite H.
  apply strictEqStr_true in H. rewrite H.
  change (strictEqStr (VString (js "write")) (js "patch")) with false.
  fold (pathArg output). cbv beta iota.
  destruct (pathArg output); try reflexivity.
  fold (check client (js "write") s).
  destruct (check client (js "write") s) as [t [[]|e]]; unfold bind, ret;
    simpl; now rewrite ?app_nil_r.
Qed.

Lemma hook_patch (client : jsstring -> sink) (input output : value) :
  strictEqStr (optGet input (js "tool")) (js "patch") = true ->
  tool_execute_before client input output =
  forOf (parseNewFilesFromPatch (patchArg output)) (check client (js "patch(add)")).
Proof.
  intros H. unfold tool_execute_before. rewrite H.
  apply strictEqStr_true in H. rewrite H.
  change (strictEqStr (VString (js "patch")) (js "write")) with false.
  fold (patchArg output). cbv beta iota.
  unfold bind at 1, ret at 1.
  match goal with |- (let (t', r) := ?m in _) = ?n => change m with n end.
  now destruct (forOf _ _).
Qed.

Lemma hook_other (client : jsstring -> sink) (input output : value) :
  strictEqStr (optGet input (js "tool")) (js "write") = false ->
  strictEqStr (optGet input (js "tool")) (js "patch") = false ->
  tool_execute_before client input output = ([], Normal tt).
Proof.
  intros H1 H2. unfold tool_execute_before. now rewrite H1, H2.
Qed.

(** C2: a [write] of "src/simple_utils.js" is rejected with a message that
    contains that path, on every host (the sink being called once where
    there is one to call); a [write] of "src/utils.js" returns normally;
    and for a tool that is neither [write] nor [patch] the hook returns
    normally, with no call of the classifier or of the sink, whatever the
    arguments are. *)
Theorem C2_write_rejected_or_passed_other_tools_ignored :
  (forall client,
      tool_execute_before client (toolCall (js "write"))
        (withArgs [(js "filePath", VString (js "src/simple_utils.js"))])
      = (Classified (js "src/simple_utils.js")
           :: sinkCalls client (msg (js "src/simple_utils.js") (js "write")),
         Throw (msg (js "src/simple_utils.js") (js "write"))))
  /\ (forall client,
         (forall m e, client m <> Unsupported e) ->
         tool_execute_before client (toolCall (js "write"))
           (withArgs [(js "filePath", VString (js "src/simple_utils.js"))])
         = ([Classified (js "src/simple_utils.js");
             ShowToast (msg (js "src/simple_utils.js") (js "write")) (js "error")],
            Throw (msg (js "src/simple_utils.js") (js "write"))))
  /\ Contains (js "src/simple_utils.js") (msg (js "src/simple_utils.js") (js "write"))
  /\ (forall client,
         tool_execute_before client (toolCall (js "write"))
           (withArgs [(js "filePath", VString (js "src/utils.js"))])
         = ([Classified (js "src/utils.js")], Normal tt))
  /\ (forall client input output,
         strictEqStr (optGet input (js "tool")) (js "write") = false ->
         strictEqStr (optGet input (js "tool")) (js "patch") = false ->
         tool_execute_before client input output = ([], Normal tt))
  /\ (forall client output,
         tool_execute_before client (toolCall (js "read")) output = ([], Normal tt))
  /\ (forall client output,
         tool_execute_before client (toolCall (js "list")) output = ([], Normal tt)).
Proof.
  assert (Run : forall client,
      tool_execute_before client (toolCall (js "write"))
        (withArgs [(js "filePath", VString (js "src/simple_utils.js"))])
      = (Classified (js "src/simple_utils.js")
           :: sinkCalls client (msg (js "src/simple_utils.js") (js "write")),
         Throw (msg (js "src/simple_utils.js") (js "write")))).
  { intros client. rewrite hook_write by reflexivity.
    change (pathArg _) with (VString (js "src/simple_utils.js")).
    now apply check_flagged. }
  split; [exact Run|].
  split.
  { intros client H. rewrite Run. now rewrite sinkCalls_supported. }
  split; [apply msg_contains_path|].
  split.
  { intros client. rewrite hook_write by reflexivity.
    change (pathArg _) with (VString (js "src/utils.js")).
    now apply check_clean. }
  split; [exact hook_other|].
  split; intros client output; now apply hook_other.
Qed.

Lemma C2_witness :
  strictEqStr (optGet (toolCall (js "edit")) (js "tool")) (js "write") = false
  /\ strictEqStr (optGet (toolCall (js "edit")) (js "tool")) (js "patch") = false
  /\ tool_execute_before workingClient (toolCall (js "edit"))
       (withArgs [(js "filePath", VString (js "src/simple_utils.js"))])
     = ([], Normal tt).
Proof.
  split; [reflexivity|]. split; [reflexivity|].
  exact (proj1 (proj2 (proj2 (proj2 (proj2
           C2_write_rejected_or_passed_other_tools_ignored))))
           workingClient (toolCall (js "edit"))
           (withArgs [(js "filePath", VString (js "src/simple_utils.js"))])
           eq_refl eq_refl).
Defined.




(** *** The sink cannot change the outcome *)

(** The files of a scan: all clean, or a first flagged one. *)
Lemma first_flagged (files : list jsstring) :
  Forall (fun q => shouldBlockPath q = false) files
  \/ exists pre p post,
       files = pre ++ p :: post
       /\ Forall (fun q => shouldBlockPath q = false) pre
       /\ shouldBlockPath p = true.
Proof.
  induction files as [|f files [IH | (pre & p & post & -> & Hpre & Hp)]].
  - left. constructor.
  - destruct (shouldBlockPath f) eqn:E.
    + right. exists [], f, files. repeat split; [constructor | assumption].
    + left. now constructor.
  - destruct (shouldBlockPath f) eqn:E.
    + right. exists [], f, (pre ++ p :: post).
      repeat split; [constructor | assumption].
    + right. exists (f :: pre), p, post. repeat split; [|assumption].
      now constructor.
Qed.

(** Every run of the hook is a list of classifications, then the sink
    calls of its completion; neither the list nor the completion depends
    on the host. *)
Lemma hook_shape (input output : value) :
  exists ps r,
    forall client,
      tool_execute_before client input output
      = (map Classified ps ++ afterwards client r, r).
Proof.
  destruct (strictEqStr (optGet input (js "tool")) (js "write")) eqn:Ew.
  - destruct (pathArg output) eqn:Ep;
      try (exists [], (Normal tt); intros client;
           rewrite hook_write, Ep by assumption; reflexivity).
    destruct (shouldBlockPath s) eqn:Es.
    + exists [s], (Throw (msg s (js "write"))). intros client.
      rewrite hook_write, Ep by assumption. now apply check_flagged.
    + exists [s], (Normal tt). intros client.
      rewrite hook_write, Ep by assumption. now apply check_clean.
  - destruct (strictEqStr (optGet input (js "tool")) (js "patch")) eqn:Et.
    + destruct (Hook.first_flagged (parseNewFilesFromPatch (patchArg output)))
        as [H | (pre & p & post & E & Hpre & Hp)].
      * exists (parseNewFilesFromPatch (patchArg output)), (Normal tt).
        intros client. rewrite hook_patch by assumption.
        rewrite forOf_clean by assumption. simpl. now rewrite app_nil_r.
      * exists (pre ++ [p]), (Throw (msg p (js "patch(add)"))).
        intros client. rewrite hook_patch, E by assumption.
        rewrite forOf_first_flagged by assumption.
        rewrite map_app, <- app_assoc. reflexivity.
    + exists [], (Normal tt). intros client. now apply hook_other.
Qed.

Lemma classifications_shape (ps : list jsstring) (client : jsstring -> sink)
      (r : completion unit) :
  classifications (map Classified ps ++ afterwards client r) = map Classified ps.
Proof.
  unfold classifications. rewrite filter_app.
  assert (A : filter (fun ev => negb (isToast ev)) (afterwards client r) = []).
  { destruct r as [[]|e]; [reflexivity|]. simpl. unfold sinkCalls.
    destruct (client e); reflexivity. }
  rewrite A, app_nil_r. induction ps as [|q ps IH]; [reflexivity|].
  simpl. now rewrite IH.
Qed.

(** C6: [reject] throws the rejection, with its own message, on every host:
    whether the sink returned, faulted, or was not there to call, the
    error of the sink is caught inside [reject] and is never what is
    thrown; the completion of the hook and what it classifies are the same
    for every host, and a flagged path is rejected under a sink that always
    faults and on a host without a sink. *)
Theorem C6_sink_fault_never_masks_rejection :
  (forall client p via,
      reject client p via = (sinkCalls client (msg p via), Throw (msg p via)))
  /\ (forall e p via,
         reject (fun _ => Faulted e) p via
         = ([ShowToast (msg p via) (js "error")], Throw (msg p via)))
  /\ (forall e p via,
         reject (fun _ => Unsupported e) p via = ([], Throw (msg p via)))
  /\ (forall c1 c2 input output,
         snd (tool_execute_before c1 input output)
         = snd (tool_execute_before c2 input output)
         /\ classifications (fst (tool_execute_before c1 input output))
            = classifications (fst (tool_execute_before c2 input output)))
  /\ tool_execute_before faultyClient (toolCall (js "write"))
       (withArgs [(js "filePath", VString (js "src/simple_utils.js"))])
     = tool_execute_before workingClient (toolCall (js "write"))
         (withArgs [(js "filePath", VString (js "src/simple_utils.js"))])
  /\ snd (tool_execute_before faultyClient (toolCall (js "write"))
            (withArgs [(js "filePath", VString (js "src/simple_utils.js"))]))
     = Throw (msg (js "src/simple_utils.js") (js "write"))
  /\ tool_execute_before brokenClient (toolCall (js "write"))
       (withArgs [(js "filePath", VString (js "src/simple_utils.js"))])
     = ([Classified (js "src/simple_utils.js")],
        Throw (msg (js "src/simple_utils.js") (js "write"))).
Proof.
  split; [exact reject_run|].
  split; [intros e p via; now rewrite reject_run|].
  split; [intros e p via; now rewrite reject_run|].
  split.
  { intros c1 c2 input output.
    destruct (hook_shape input output) as (ps & r & H).
    rewrite (H c1), (H c2). simpl. split; [reflexivity|].
    now rewrite !classifications_shape. }
  split; [reflexivity|]. split; reflexivity.
Qed.

(** *** Arguments that are not strings *)

Lemma nullish_not_string (a b : value) :
  isString a = false -> isString b = false -> isString (nullish a b) = false.
Proof. destruct a; simpl; intros Ha Hb; assumption || reflexivity. Qed.

(** C9: a [write] whose [filePath] and [path] arguments are both not
    strings, and a [patch] whose [patch] and [content] arguments are both
    not strings, return normally: nothing is classified, the sink is not
    called, nothing is thrown. *)
Theorem C9_non_string_arguments_pass :
  (forall client input output,
      strictEqStr (optGet input (js "tool")) (js "write") = true ->
      isString (optGet (optGet output (js "args")) (js "filePath")) = false ->
      isString (optGet (optGet output (js "args")) (js "path")) = false ->
      tool_execute_before client input output = ([], Normal tt))
  /\ (forall client input output,
         strictEqStr (optGet input (js "tool")) (js "patch") = true ->
         isString (optGet (optGet output (js "args")) (js "patch")) = false ->
         isString (optGet (optGet output (js "args")) (js "content")) = false ->
         tool_execute_before client input output = ([], Normal tt)).
Proof.
  split; intros client input output Ht Ha Hb.
  - rewrite hook_write by assumption.
    pose proof (nullish_not_string _ _ Ha Hb) as H. fold (pathArg output) in H.
    destruct (pathArg output); try reflexivity. discriminate.
  - rewrite hook_patch by assumption.
    pose proof (nullish_not_string _ _ Ha Hb) as H. fold (patchArg output) in H.
    destruct (patchArg output); try reflexivity. discriminate.
Qed.

Lemma C9_witness :
  strictEqStr (optGet (toolCall (js "write")) (js "tool")) (js "write") = true
  /\ isString (optGet (optGet (withArgs [(js "filePath", VNull);
                                         (js "path", VNumber 42)])
                         (js "args")) (js "filePath")) = false
  /\ isString (optGet (optGet (withArgs [(js "filePath", VNull);
                                         (js "path", VNumber 42)])
                         (js "args")) (js "path")) = false
  /\ tool_execute_before workingClient (toolCall (js "write"))
       (withArgs [(js "filePath", VNull); (js "path", VNumber 42)])
     = ([], Normal tt).
Proof.
  split; [reflexivity|]. split; [reflexivity|]. split; [reflexivity|].
  exact (proj1 C9_non_string_arguments_pass workingClient
           (toolCall (js "write"))
           (withArgs [(js "filePath", VNull); (js "path", VNumber 42)])
           eq_refl eq_refl eq_refl).
Defined.

End Hook.

(** ** More on the classifier *)

Module ClassifierMore.

Import ClassifierSpec MoreSpec StrFacts.

Lemma tokenize_stem (b : jsstring) : tokenize b = stemTokens (stripExt b).
Proof. reflexivity. Qed.

Lemma upper_not_lowerOrDigit (c : N) : isUpper c = true -> isLowerOrDigit c = false.
Proof.
  unfold isUpper, isLowerOrDigit, isLower, isDigit, between. intros H.
  apply andb_true_iff in H as [H1 H2]. apply N.leb_le in H1, H2.
  apply orb_false_iff. split; apply andb_false_iff.
  - left. apply N.leb_gt. lia.
  - right. apply N.leb_gt. lia.
Qed.

(** One step of the split: a match never overlaps the next one. *)
Lemma camelSplit_step (x : N) (r : jsstring) :
  camelSplit (x :: r) = x :: gap x r ++ camelSplit r.
Proof.
  destruct r as [|y r]; [reflexivity|].
  change (camelSplit (x :: y :: r))
    with (if isLowerOrDigit x && isUpper y
          then x :: 95 :: y :: camelSplit r
          else x :: camelSplit (y :: r)).
  unfold gap. destruct (isLowerOrDigit x && isUpper y) eqn:E; [|reflexivity].
  apply andb_true_iff in E as [_ Hy]. simpl app. do 2 f_equal.
  destruct r as [|z r]; [reflexivity|].
  change (camelSplit (y :: z :: r))
    with (if isLowerOrDigit y && isUpper z
          then y :: 95 :: z :: camelSplit r
          else y :: camelSplit (z :: r)).
  now rewrite (upper_not_lowerOrDigit y Hy).
Qed.

Lemma separator_spec (c : N) :
  separator c = true ->
  isLowerOrDigit c = false /\ isUpper c = false /\ lowerUnit c = [c].
Proof.
  unfold separator, lowerUnit. intros H.
  apply andb_true_iff in H as [H H4]. apply andb_true_iff in H as [H H3].
  apply andb_true_iff in H as [H1 H2].
  apply negb_true_iff in H1, H2, H3, H4. now rewrite H2, H3, H4.
Qed.

Lemma camelSplit_separator (a b : jsstring) (c : N) :
  isLowerOrDigit c = false -> isUpper c = false ->
  camelSplit (a ++ c :: b) = camelSplit a ++ c :: camelSplit b.
Proof.
  intros Hl Hu. induction a as [|x a IH].
  - simpl app. rewrite camelSplit_step. unfold gap.
    destruct b; [reflexivity|]. now rewrite Hl.
  - change ((x :: a) ++ c :: b) with (x :: (a ++ c :: b)).
    rewrite !camelSplit_step, IH.
    assert (G : gap x (a ++ c :: b) = gap x a).
    { destruct a as [|y a]; [|reflexivity]. simpl. now rewrite Hu, andb_false_r. }
    rewrite G. simpl. now rewrite <- app_assoc.
Qed.

Lemma camelSplit_boundary (a b : jsstring) (x y : N) :
  isLowerOrDigit x = true -> isUpper y = true ->
  camelSplit ((a ++ [x]) ++ y :: b)
  = camelSplit (a ++ [x]) ++ 95 :: camelSplit (y :: b).
Proof.
  intros Hx Hy. induction a as [|z a IH].
  - simpl app. rewrite (camelSplit_step x (y :: b)). unfold gap.
    now rewrite Hx, Hy.
  - change (((z :: a) ++ [x]) ++ y :: b) with (z :: ((a ++ [x]) ++ y :: b)).
    change ((z :: a) ++ [x]) with (z :: (a ++ [x])).
    rewrite (camelSplit_step z ((a ++ [x]) ++ y :: b)),
            (camelSplit_step z (a ++ [x])), IH.
    assert (G : gap z ((a ++ [x]) ++ y :: b) = gap z (a ++ [x]))
      by (destruct a; reflexivity).
    rewrite G. simpl. now rewrite <- app_assoc.
Qed.

Lemma toLowerCase_app (a b : jsstring) :
  toLowerCase (a ++ b) = toLowerCase a ++ toLowerCase b.
Proof. apply flat_map_app. Qed.

(** Whether a separator run is being read does not change the tokens. *)
Lemma pieces_from_separator (v : jsstring) :
  filter truthy (splitRuns true [] v) = filter truthy (splitRuns false [] v).
Proof.
  destruct v as [|c v]; [reflexivity|]. simpl.
  destruct (isLowerOrDigit c); reflexivity.
Qed.

Lemma pieces_app (u v cur : jsstring) (inSep : bool) (c : N) :
  isLowerOrDigit c = false -> (inSep = true -> cur = []) ->
  filter truthy (splitRuns inSep cur (u ++ c :: v))
  = filter truthy (splitRuns inSep cur u) ++ filter truthy (splitRuns false [] v).
Proof.
  intros Hc. revert cur inSep; induction u as [|x u IH]; intros cur inSep Hinv.
  - simpl. rewrite Hc. destruct inSep.
    + rewrite (Hinv eq_refl). simpl. apply pieces_from_separator.
    + simpl. rewrite pieces_from_separator. now destruct (rev cur).
  - simpl. destruct (isLowerOrDigit x).
    + apply IH. discriminate.
    + destruct inSep.
      * now apply IH.
      * simpl. rewrite IH by reflexivity. now destruct (rev cur).
Qed.

Lemma stemTokens_separator (a b : jsstring) (c : N) :
  separator c = true ->
  stemTokens (a ++ c :: b) = stemTokens a ++ stemTokens b.
Proof.
  intros H. apply separator_spec in H as (Hl & Hu & Hlow). unfold stemTokens.
  rewrite camelSplit_separator by assumption.
  rewrite toLowerCase_app. unfold toLowerCase at 2. simpl flat_map.
  rewrite Hlow. simpl app. fold (toLowerCase (camelSplit b)).
  apply pieces_app; [assumption | discriminate].
Qed.

Lemma stemTokens_boundary (a b : jsstring) (x y : N) :
  isLowerOrDigit x = true -> isUpper y = true ->
  stemTokens ((a ++ [x]) ++ y :: b)
  = stemTokens (a ++ [x]) ++ stemTokens (y :: b).
Proof.
  intros Hx Hy. unfold stemTokens.
  rewrite camelSplit_boundary by assumption.
  rewrite toLowerCase_app. unfold toLowerCase at 2. simpl flat_map.
  change (lowerUnit 95) with [95]. simpl app.
  fold (toLowerCase (camelSplit (y :: b))).
  apply pieces_app; [reflexivity | discriminate].
Qed.

Lemma lowerOrDigit_not_upper (c : N) : isLowerOrDigit c = true -> isUpper c = false.
Proof.
  intros H. destruct (isUpper c) eqn:E; [|reflexivity].
  apply upper_not_lowerOrDigit in E. congruence.
Qed.

Lemma lowerUnit_lowerOrDigit (c : N) : isLowerOrDigit c = true -> lowerUnit c = [c].
Proof.
  intros H. unfold lowerUnit. rewrite (lowerOrDigit_not_upper c H).
  apply Classifier.isLowerOrDigit_spec in H. unfold alnum in H.
  destruct (N.eqb c 304) eqn:E1; [apply N.eqb_eq in E1; lia|].
  destruct (N.eqb c 8490) eqn:E2; [apply N.eqb_eq in E2; lia|].
  reflexivity.
Qed.

Lemma toLowerCase_word (w : jsstring) :
  forallb isLowerOrDigit w = true -> toLowerCase w = w.
Proof.
  induction w as [|c w IH]; intros H; [reflexivity|].
  simpl in H. apply andb_true_iff in H as [Hc Hw].
  unfold toLowerCase in *. simpl. rewrite (lowerUnit_lowerOrDigit c Hc).
  simpl. now rewrite IH.
Qed.

Lemma camelSplit_word (w : jsstring) :
  forallb isLowerOrDigit w = true -> camelSplit w = w.
Proof.
  intros H. apply Classifier.camelSplit_no_boundary.
  intros (pre & a & b & post & -> & _ & Hb).
  rewrite forallb_app in H. apply andb_true_iff in H as [_ H].
  simpl in H. apply andb_true_iff in H as [_ H].
  apply andb_true_iff in H as [H _].
  apply lowerOrDigit_not_upper in H. congruence.
Qed.

(** A lower-case word is its own only token. *)
Lemma stemTokens_word (w : jsstring) :
  w <> [] -> forallb isLowerOrDigit w = true -> stemTokens w = [w].
Proof.
  intros Hne H. unfold stemTokens.
  rewrite camelSplit_word, toLowerCase_word by assumption.
  rewrite Classifier.splitRuns_run by assumption. simpl.
  destruct w; [now elim Hne | reflexivity].
Qed.

Lemma BANNED_words :
  forallb (fun w => truthy w && forallb isLowerOrDigit w) BANNED = true.
Proof. vm_compute. reflexivity. Qed.

Lemma Flagging_word (w : jsstring) :
  Flagging w -> w <> [] /\ forallb isLowerOrDigit w = true.
Proof.
  intros [H | (ds & Hne & Hd & ->)].
  - pose proof BANNED_words as K. rewrite forallb_forall in K.
    specialize (K w H). apply andb_true_iff in K as [K1 K2].
    split; [|assumption]. intros ->. discriminate.
  - split; [discriminate|]. simpl. apply forallb_forall. intros c Hc.
    rewrite Forall_forall in Hd. specialize (Hd c Hc).
    apply Classifier.isLowerOrDigit_spec. now right.
Qed.

Lemma Flagging_test (w : jsstring) :
  Flagging w -> has BANNED w || isVersionToken w = true.
Proof.
  intros [H | H]; apply orb_true_iff.
  - left. now apply has_In.
  - right. now apply Classifier.isVersionToken_spec.
Qed.

Lemma flagged_by_token (name w : jsstring) :
  ClassifierSpec.NoSlash name -> Flagging w -> In w (tokenize name) ->
  shouldBlockPath name = true.
Proof.
  intros Hn Hw Hin. unfold shouldBlockPath.
  rewrite Classifier.basename_of_name by assumption.
  apply existsb_exists. exists w. split; [assumption | now apply Flagging_test].
Qed.

(** X1: the final extension takes no part in the classification: the
    tokens of a name with an extension are those of what is in front of
    it, and two names without a slash that differ only in the extension
    are classified alike. *)
Theorem X1_extension_takes_no_part :
  forall stem x y,
    Extension x -> Extension y ->
    tokenize (stem ++ x) = stemTokens stem
    /\ (NoSlash (stem ++ x) -> NoSlash (stem ++ y) ->
        shouldBlockPath (stem ++ x) = shouldBlockPath (stem ++ y)).
Proof.
  intros stem x y Hx Hy.
  assert (T : forall e, Extension e -> tokenize (stem ++ e) = stemTokens stem).
  { intros e He. rewrite tokenize_stem. now rewrite Classifier.stripExt_strips. }
  split; [now apply T|]. intros Sx Sy. unfold shouldBlockPath.
  rewrite !Classifier.basename_of_name by assumption.
  now rewrite (T x Hx), (T y Hy).
Qed.

Lemma X1_witness :
  Extension (js ".bak") /\ Extension (js ".js")
  /\ tokenize (js "report" ++ js ".bak") = stemTokens (js "report")
  /\ (NoSlash (js "report" ++ js ".bak") -> NoSlash (js "report" ++ js ".js") ->
      shouldBlockPath (js "report" ++ js ".bak")
      = shouldBlockPath (js "report" ++ js ".js")).
Proof.
  assert (H1 : Extension (js ".bak")).
  { exists (js "bak"). split; [reflexivity|]. split; [discriminate|].
    repeat constructor; discriminate. }
  assert (H2 : Extension (js ".js")).
  { exists (js "js"). split; [reflexivity|]. split; [discriminate|].
    repeat constructor; discriminate. }
  split; [exact H1|]. split; [exact H2|].
  exact (X1_extension_takes_no_part (js "report") (js ".bak") (js ".js") H1 H2).
Defined.

(** X2: a separator cuts a stem in two: the tokens of [a ++ c :: b] are
    those of [a] followed by those of [b], for every code unit [c] that is
    no ASCII letter or digit and does not lower-case to one; so they are
    for the name made of that stem and an extension. *)
Theorem X2_tokens_compose_across_separator :
  forall a b c,
    separator c = true ->
    stemTokens (a ++ c :: b) = stemTokens a ++ stemTokens b
    /\ (forall x, Extension x ->
                   tokenize ((a ++ c :: b) ++ x) = stemTokens a ++ stemTokens b).
Proof.
  intros a b c Hc. split; [now apply stemTokens_separator|].
  intros x Hx. rewrite tokenize_stem, Classifier.stripExt_strips by assumption.
  now apply stemTokens_separator.
Qed.

Lemma X2_witness :
  separator 45 = true
  /\ stemTokens (js "parser" ++ 45 :: js "v2")
     = stemTokens (js "parser") ++ stemTokens (js "v2").
Proof.
  split; [reflexivity|].
  exact (proj1 (X2_tokens_compose_across_separator (js "parser") (js "v2") 45 eq_refl)).
Defined.

(** X3: a camelCase boundary cuts a stem in two: when [x] is in [a-z0-9]
    and [y] in [A-Z], the tokens of [a ++ [x] ++ y :: b] are those of
    [a ++ [x]] followed by those of [y :: b]; so they are for the name
    made of that stem and an extension. *)
Theorem X3_tokens_compose_across_camel_boundary :
  forall a b x y,
    isLowerOrDigit x = true -> isUpper y = true ->
    stemTokens ((a ++ [x]) ++ y :: b)
    = stemTokens (a ++ [x]) ++ stemTokens (y :: b)
    /\ (forall e, Extension e ->
                   tokenize (((a ++ [x]) ++ y :: b) ++ e)
                   = stemTokens (a ++ [x]) ++ stemTokens (y :: b)).
Proof.
  intros a b x y Hx Hy. split; [now apply stemTokens_boundary|].
  intros e He. rewrite tokenize_stem, Classifier.stripExt_strips by assumption.
  now apply stemTokens_boundary.
Qed.

Lemma X3_witness :
  isLowerOrDigit 101 = true /\ isUpper 69 = true
  /\ stemTokens ((js "Featur" ++ [101]) ++ 69 :: js "nhanced")
     = stemTokens (js "Featur" ++ [101]) ++ stemTokens (69 :: js "nhanced").
Proof.
  split; [reflexivity|]. split; [reflexivity|].
  exact (proj1 (X3_tokens_compose_across_camel_boundary (js "Featur") (js "nhanced")
                  101 69 eq_refl eq_refl)).
Defined.

(** *** Names that carry a flagged word *)

Lemma BANNED_shape :
  forallb (fun w => match w with
                    | l :: _ :: _ => isLower l
                    | _ => false
                    end) BANNED = true.
Proof. vm_compute. reflexivity. Qed.

Lemma Flagging_shape (l : N) (ws : jsstring) :
  Flagging (l :: ws) -> isLower l = true /\ ws <> [].
Proof.
  intros [H | (ds & Hne & _ & E)].
  - pose proof BANNED_shape as K. rewrite forallb_forall in K.
    specialize (K _ H). simpl in K. destruct ws; [discriminate|].
    split; [assumption | discriminate].
  - injection E as -> ->. split; [reflexivity | assumption].
Qed.

Lemma lower_capital (l : N) :
  isLower l = true ->
  isUpper (l - 32) = true /\ lowerUnit (l - 32) = [l].
Proof.
  unfold isLower, isUpper, lowerUnit, between. intros H.
  apply andb_true_iff in H as [H1 H2]. apply N.leb_le in H1, H2.
  assert (E : N.leb 65 (l - 32) && N.leb (l - 32) 90 = true).
  { apply andb_true_iff. split; apply N.leb_le; lia. }
  unfold isUpper, between. rewrite E. split; [reflexivity|]. f_equal. lia.
Qed.

Lemma stemTokens_spelled (W w : jsstring) :
  Spelled W w -> Flagging w -> stemTokens W = [w].
Proof.
  intros HW Hw. destruct (Flagging_word w Hw) as [Hne Hall].
  destruct HW as [-> | (l & ws & -> & ->)]; [now apply stemTokens_word|].
  destruct (Flagging_shape l ws Hw) as [Hl _].
  destruct (lower_capital l Hl) as [Hu Hlow].
  simpl in Hall. apply andb_true_iff in Hall as [_ Hws].
  unfold stemTokens. rewrite camelSplit_step.
  assert (G : gap (l - 32) ws = []).
  { unfold gap. destruct ws; [reflexivity|].
    now rewrite (upper_not_lowerOrDigit _ Hu). }
  rewrite G, camelSplit_word by assumption. simpl app.
  unfold toLowerCase. simpl flat_map. rewrite Hlow.
  fold (toLowerCase ws). rewrite toLowerCase_word by assumption. simpl app.
  rewrite Classifier.splitRuns_run; [reflexivity|].
  simpl. rewrite Hws, andb_true_r.
  unfold isLowerOrDigit. now rewrite Hl.
Qed.

(** A spelled word ends in a code unit of [a-z0-9]. *)
Lemma spelled_last (W w : jsstring) :
  Spelled W w -> Flagging w ->
  exists W' z, W = W' ++ [z] /\ isLowerOrDigit z = true.
Proof.
  intros HW Hw. destruct (Flagging_word w Hw) as [Hne Hall].
  destruct HW as [-> | (l & ws & -> & ->)].
  - destruct (exists_last Hne) as (W' & z & ->). exists W', z.
    split; [reflexivity|]. rewrite forallb_app in Hall.
    apply andb_true_iff in Hall as [_ Hz]. simpl in Hz.
    now apply andb_true_iff in Hz as [Hz _].
  - destruct (Flagging_shape l ws Hw) as [_ Hws].
    destruct (exists_last Hws) as (ws' & z & ->).
    exists ((l - 32) :: ws'), z. split; [reflexivity|].
    simpl in Hall. apply andb_true_iff in Hall as [_ Hall].
    rewrite forallb_app in Hall. apply andb_true_iff in Hall as [_ Hz].
    simpl in Hz. now apply andb_true_iff in Hz as [Hz _].
Qed.

Lemma stemTokens_word_then (W w post : jsstring) :
  Spelled W w -> Flagging w -> EndsWord post ->
  stemTokens (W ++ post) = w :: stemTokens post.
Proof.
  intros HW Hw [-> | (c & post' & -> & [Hc | Hc])].
  - rewrite app_nil_r. now apply stemTokens_spelled.
  - rewrite stemTokens_separator by assumption.
    rewrite (stemTokens_spelled W w HW Hw). simpl.
    f_equal. change (c :: post') with ([] ++ c :: post').
    now rewrite stemTokens_separator.
  - destruct (spelled_last W w HW Hw) as (W' & z & E & Hz).
    rewrite E, stemTokens_boundary by assumption. rewrite <- E.
    now rewrite (stemTokens_spelled W w HW Hw).
Qed.

(** X4: a name is flagged when its stem holds a banned word or a version
    token, written as it is or with a capital first letter, that starts
    the stem or follows a separator, and that ends the stem or is followed
    by a separator or by a letter in upper case. *)
Theorem X4_word_between_separators_is_flagged :
  forall name pre W w post,
    NoSlash name ->
    stripExt name = pre ++ W ++ post ->
    Spelled W w -> Flagging w -> StartsWord pre -> EndsWord post ->
    shouldBlockPath name = true.
Proof.
  intros name pre W w post Hn E HW Hw Hpre Hpost.
  apply (flagged_by_token name w Hn Hw). rewrite tokenize_stem, E.
  destruct Hpre as [-> | (pre' & c & -> & Hc)].
  - simpl. rewrite (stemTokens_word_then W w post HW Hw Hpost). now left.
  - rewrite <- app_assoc. simpl. rewrite stemTokens_separator by assumption.
    rewrite (stemTokens_word_then W w post HW Hw Hpost).
    apply in_or_app. right. now left.
Qed.

Lemma X4_witness :
  NoSlash (js "utils_old-draft.py")
  /\ stripExt (js "utils_old-draft.py") = js "utils_" ++ js "old" ++ js "-draft"
  /\ Spelled (js "old") (js "old") /\ Flagging (js "old")
  /\ StartsWord (js "utils_") /\ EndsWord (js "-draft")
  /\ shouldBlockPath (js "utils_old-draft.py") = true.
Proof.
  assert (H1 : NoSlash (js "utils_old-draft.py")).
  { intros K. vm_compute in K. intuition discriminate. }
  assert (H2 : stripExt (js "utils_old-draft.py")
               = js "utils_" ++ js "old" ++ js "-draft") by reflexivity.
  assert (H3 : Spelled (js "old") (js "old")) by now left.
  assert (H4 : Flagging (js "old")).
  { left. vm_compute. intuition. }
  assert (H5 : StartsWord (js "utils_")).
  { right. exists (js "utils"), 95. split; reflexivity. }
  assert (H6 : EndsWord (js "-draft")).
  { right. exists 45, (js "draft"). split; [reflexivity|]. now left. }
  repeat (split; [assumption|]).
  exact (X4_word_between_separators_is_flagged _ _ _ _ _ H1 H2 H3 H4 H5 H6).
Defined.

(** X5: a name is flagged when its stem holds a banned word or a version
    token with a capital first letter right after a code unit of [a-z0-9]
    (a camelCase part), ending the stem or followed by a separator or by a
    letter in upper case. *)
Theorem X5_capitalised_word_after_lowercase_is_flagged :
  forall name a x l ws post,
    NoSlash name ->
    stripExt name = (a ++ [x]) ++ ((l - 32) :: ws) ++ post ->
    isLowerOrDigit x = true -> Flagging (l :: ws) -> EndsWord post ->
    shouldBlockPath name = true.
Proof.
  intros name a x l ws post Hn E Hx Hw Hpost.
  apply (flagged_by_token name (l :: ws) Hn Hw). rewrite tokenize_stem, E.
  destruct (Flagging_shape l ws Hw) as [Hl _].
  destruct (lower_capital l Hl) as [Hu _].
  change (((l - 32) :: ws) ++ post) with ((l - 32) :: (ws ++ post)).
  rewrite stemTokens_boundary by assumption.
  change ((l - 32) :: (ws ++ post)) with (((l - 32) :: ws) ++ post).
  assert (HW : Spelled ((l - 32) :: ws) (l :: ws))
    by (right; now exists l, ws).
  rewrite (stemTokens_word_then _ _ post HW Hw Hpost).
  apply in_or_app. right. now left.
Qed.

Lemma X5_witness :
  NoSlash (js "myNewParser.ts")
  /\ stripExt (js "myNewParser.ts")
     = (js "m" ++ [121]) ++ ((110 - 32) :: js "ew") ++ js "Parser"
  /\ isLowerOrDigit 121 = true /\ Flagging (110 :: js "ew")
  /\ EndsWord (js "Parser")
  /\ shouldBlockPath (js "myNewParser.ts") = true.
Proof.
  assert (H1 : NoSlash (js "myNewParser.ts")).
  { intros K. vm_compute in K. intuition discriminate. }
  assert (H2 : stripExt (js "myNewParser.ts")
               = (js "m" ++ [121]) ++ ((110 - 32) :: js "ew") ++ js "Parser")
    by reflexivity.
  assert (H3 : isLowerOrDigit 121 = true) by reflexivity.
  assert (H4 : Flagging (110 :: js "ew")).
  { left. vm_compute. intuition. }
  assert (H5 : EndsWord (js "Parser")).
  { right. exists 80, (js "arser"). split; [reflexivity|]. now right. }
  repeat (split; [assumption|]).
  exact (X5_capitalised_word_after_lowercase_is_flagged _ _ _ _ _ _ H1 H2 H3 H4 H5).
Defined.

(** *** Names without letters or digits *)

Lemma takeSegment_incl (r : jsstring) (c : N) :
  In c (Path.takeSegment r) -> In c r.
Proof.
  induction r as [|d r IH]; simpl; [tauto|].
  destruct (N.eqb d Path.slash); simpl; [tauto|]. intros [H | H]; auto.
Qed.

Lemma dropSlashes_incl (r : jsstring) (c : N) :
  In c (Path.dropSlashes r) -> In c r.
Proof.
  induction r as [|d r IH]; simpl; [tauto|].
  destruct (N.eqb d Path.slash); simpl; auto.
Qed.

Lemma basename_incl (p : jsstring) (c : N) : In c (Path.basename p) -> In c p.
Proof.
  unfold Path.basename. intros H. apply in_rev in H.
  apply takeSegment_incl, dropSlashes_incl in H. now apply in_rev.
Qed.

(** What [stripExt] leaves is a prefix of the name. *)
Lemma stripExt_prefix (s : jsstring) : exists t, s = stripExt s ++ t.
Proof.
  induction s as [|c r [t IH]]; [now exists []|].
  simpl stripExt.
  destruct (Re.test _); [now exists (c :: r)|].
  exists t. simpl. now rewrite <- IH.
Qed.

Lemma pieces_of_separators (s : jsstring) (inSep : bool) :
  forallb (fun c => negb (isLowerOrDigit c)) s = true ->
  filter truthy (splitRuns inSep [] s) = [].
Proof.
  revert inSep; induction s as [|c s IH]; intros inSep H; [reflexivity|].
  simpl in H. apply andb_true_iff in H as [Hc Hs].
  apply negb_true_iff in Hc. simpl. rewrite Hc.
  destruct inSep; simpl; now apply IH.
Qed.

Lemma stemTokens_of_separators (s : jsstring) :
  forallb separator s = true -> stemTokens s = [].
Proof.
  intros H. rewrite forallb_forall in H. unfold stemTokens.
  assert (Hc : camelSplit s = s).
  { apply Classifier.camelSplit_no_boundary.
    intros (pre & a & b & post & -> & Ha & _).
    assert (K : separator a = true)
      by (apply H, in_or_app; right; now left).
    apply separator_spec in K as [K _]. congruence. }
  assert (Hl : toLowerCase s = s).
  { unfold toLowerCase. clear Hc. induction s as [|c s IH]; [reflexivity|].
    simpl. destruct (separator_spec c (H c (or_introl eq_refl))) as (_ & _ & ->).
    simpl. f_equal. apply IH. intros d Hd. apply H. now right. }
  rewrite Hc, Hl. apply pieces_of_separators. apply forallb_forall.
  intros c Hin. destruct (separator_spec c (H c Hin)) as (K & _).
  now rewrite K.
Qed.

(** X6: a path without any ASCII letter or digit (and without the two
    code units that lower-case to one) has no token and is never flagged:
    the empty path, a path of slashes, dots, dashes or underscores only. *)
Theorem X6_no_letter_no_digit_never_flagged :
  forall p,
    forallb separator p = true ->
    tokenize (Path.basename p) = [] /\ shouldBlockPath p = false.
Proof.
  intros p H.
  assert (T : tokenize (Path.basename p) = []).
  { rewrite tokenize_stem. apply stemTokens_of_separators.
    apply forallb_forall. intros c Hc. rewrite forallb_forall in H. apply H.
    apply basename_incl. destruct (stripExt_prefix (Path.basename p)) as [t E].
    rewrite E. apply in_or_app. now left. }
  split; [exact T|]. unfold shouldBlockPath. now rewrite T.
Qed.

Lemma X6_witness :
  forallb separator (js "../__/.-.") = true
  /\ tokenize (Path.basename (js "../__/.-.")) = []
  /\ shouldBlockPath (js "../__/.-.") = false.
Proof.
  split; [reflexivity|].
  exact (X6_no_letter_no_digit_never_flagged (js "../__/.-.") eq_refl).
Defined.

(** X7: every token that [tokenize] returns is a non-empty run of lower
    case ASCII letters and digits, and it stands in the lower-cased,
    boundary-split stem between code units that are neither. *)
Theorem X7_tokens_are_lowercase_alphanumeric_runs :
  forall b t,
    In t (tokenize b) ->
    t <> [] /\ forallb isLowerOrDigit t = true
    /\ exists pre post, toLowerCase (camelSplit (stripExt b)) = pre ++ t ++ post.
Proof.
  intros b t H. apply Classifier.tokenize_Token in H.
  destruct H as (Hne & Hall & pre & post & E & _).
  split; [assumption|]. split; [|now exists pre, post].
  apply forallb_forall. rewrite Forall_forall in Hall.
  intros c Hc. apply Classifier.isLowerOrDigit_spec. now apply Hall.
Qed.

Lemma X7_witness :
  In (js "v2") (tokenize (js "Parser_V2.final.rs"))
  /\ js "v2" <> [] /\ forallb isLowerOrDigit (js "v2") = true
  /\ exists pre post,
       toLowerCase (camelSplit (stripExt (js "Parser_V2.final.rs")))
       = pre ++ js "v2" ++ post.
Proof.
  assert (H : In (js "v2") (tokenize (js "Parser_V2.final.rs")))
    by (vm_compute; intuition).
  split; [exact H|].
  exact (X7_tokens_are_lowercase_alphanumeric_runs (js "Parser_V2.final.rs") (js "v2") H).
Defined.

(** X8: slashes at the end of a path are not part of its name: the path
    is classified as it is without them, so that a directory written with
    a trailing slash is judged by its last segment. *)
Theorem X8_trailing_slashes_ignored :
  forall p n,
    Path.basename (p ++ repeat Path.slash n) = Path.basename p
    /\ shouldBlockPath (p ++ repeat Path.slash n) = shouldBlockPath p.
Proof.
  intros p n.
  assert (B : Path.basename (p ++ repeat Path.slash n) = Path.basename p).
  { unfold Path.basename. rewrite rev_app_distr. f_equal. f_equal.
    rewrite rev_repeat. induction n as [|n IH]; [reflexivity|].
    simpl. exact IH. }
  split; [exact B|]. unfold shouldBlockPath. now rewrite B.
Qed.

(** *** A dot at the end *)

Lemma stripExt_trailing_dot (s : jsstring) : stripExt (s ++ [46]) = s ++ [46].
Proof.
  apply Classifier.stripExt_keeps. intros stem x E (e & -> & Hne & Hd).
  destruct (exists_last Hne) as (e' & z & ->).
  change (stem ++ 46 :: e' ++ [z]) with (stem ++ (46 :: e') ++ [z]) in E.
  rewrite app_assoc in E. apply app_inj_tail in E as [_ <-].
  apply Forall_app in Hd as [_ Hd]. inversion Hd; subst. congruence.
Qed.

(** X20: a name that ends in a dot has no extension to strip: all of it
    is cut into tokens, and what stands before the final dot counts, so
    that a banned word written as an extension is found again once a dot
    follows it. *)
Theorem X20_trailing_dot_keeps_extension_in_play :
  forall s,
    stripExt (s ++ [46]) = s ++ [46]
    /\ tokenize (s ++ [46]) = stemTokens s.
Proof.
  intros s. split; [apply stripExt_trailing_dot|].
  rewrite tokenize_stem, stripExt_trailing_dot.
  rewrite stemTokens_separator by reflexivity.
  change (stemTokens []) with (@nil jsstring). apply app_nil_r.
Qed.

(** *** A version glued to a word *)

Lemma BANNED_without_digits :
  forallb (forallb (fun c => negb (isDigit c))) BANNED = true.
Proof. vm_compute. reflexivity. Qed.

Lemma word_NoSlash_no_dot (w : jsstring) :
  forallb isLowerOrDigit w = true -> NoSlash w /\ ~ In 46 w.
Proof.
  intros H. rewrite forallb_forall in H.
  split; intros K; specialize (H _ K); discriminate.
Qed.

(** X22: a version written right after a lower-case word is not seen: the
    name made of a non-empty word of [a-z0-9], the letter [v] and one or
    more digits is a single token, which is neither banned nor a version
    token, and the name is not flagged (so "parserv2" passes where
    "parser_v2" does not). *)
Theorem X22_version_glued_to_word_not_flagged :
  forall w ds,
    w <> [] -> forallb isLowerOrDigit w = true ->
    ds <> [] -> forallb isDigit ds = true ->
    tokenize (w ++ 118 :: ds) = [w ++ 118 :: ds]
    /\ shouldBlockPath (w ++ 118 :: ds) = false.
Proof.
  intros w ds Hw Hall Hds Hdig.
  assert (Hword : forallb isLowerOrDigit (w ++ 118 :: ds) = true).
  { rewrite forallb_app, Hall. simpl. apply forallb_forall. intros c Hc.
    rewrite forallb_forall in Hdig. unfold isLowerOrDigit.
    now rewrite (Hdig c Hc), orb_true_r. }
  assert (Hne : w ++ 118 :: ds <> []) by (destruct w; discriminate).
  destruct (word_NoSlash_no_dot _ Hword) as [Hslash Hdot].
  assert (T : tokenize (w ++ 118 :: ds) = [w ++ 118 :: ds]).
  { rewrite tokenize_stem, Classifier.stripExt_no_dot by assumption.
    now apply stemTokens_word. }
  split; [exact T|]. unfold shouldBlockPath.
  rewrite Classifier.basename_of_name, T by assumption. cbn [existsb].
  rewrite orb_false_r. apply orb_false_iff. split.
  - apply has_false_not_In. intros K.
    pose proof BANNED_without_digits as B. rewrite forallb_forall in B.
    specialize (B _ K). rewrite forallb_app in B.
    apply andb_true_iff in B as [_ B]. simpl in B.
    destruct ds as [|d ds]; [now elim Hds|]. simpl in B, Hdig.
    apply andb_true_iff in Hdig as [Hd _]. now rewrite Hd in B.
  - apply not_true_is_false. intros K.
    apply Classifier.isVersionToken_spec in K as (ds' & _ & Hd' & E).
    destruct w as [|c w]; [now elim Hw|]. simpl in E. injection E as _ <-.
    apply Forall_app in Hd' as [_ Hd']. inversion Hd' as [|? ? Hv _]; subst. lia.
Qed.

Lemma X22_witness :
  js "parser" <> [] /\ forallb isLowerOrDigit (js "parser") = true
  /\ js "2" <> [] /\ forallb isDigit (js "2") = true
  /\ tokenize (js "parser" ++ 118 :: js "2") = [js "parser" ++ 118 :: js "2"]
  /\ shouldBlockPath (js "parser" ++ 118 :: js "2") = false.
Proof.
  assert (H1 : js "parser" <> []) by discriminate.
  assert (H2 : forallb isLowerOrDigit (js "parser") = true) by reflexivity.
  assert (H3 : js "2" <> []) by discriminate.
  assert (H4 : forallb isDigit (js "2") = true) by reflexivity.
  repeat (split; [assumption|]).
  exact (X22_version_glued_to_word_not_flagged (js "parser") (js "2") H1 H2 H3 H4).
Defined.

End ClassifierMore.

(** ** The classifier against the normalization, step by step *)

Module Refinement.

Import ClassifierSpec MoreSpec StrFacts.

Lemma isUpper_spec (c : N) : isUpper c = true <-> upper c.
Proof. apply Classifier.between_spec. Qed.

(** *** The basename *)

Lemma dropSlashes_split (r : jsstring) :
  exists sl, r = sl ++ Path.dropSlashes r /\ Forall (fun c => c = 47) sl.
Proof.
  induction r as [|c r (sl & E & H)]; [now exists []|].
  simpl. destruct (N.eqb c Path.slash) eqn:Ec.
  - apply N.eqb_eq in Ec. exists (c :: sl). simpl. split; [now f_equal|].
    now constructor.
  - now exists [].
Qed.

Lemma dropSlashes_head (r : jsstring) (c : N) (r' : jsstring) :
  Path.dropSlashes r = c :: r' -> c <> 47.
Proof.
  induction r as [|d r IH]; simpl; [discriminate|].
  destruct (N.eqb d Path.slash) eqn:Ed; [exact IH|].
  intros E; injection E as <- _. now apply N.eqb_neq in Ed.
Qed.

Lemma takeSegment_split (r : jsstring) :
  exists rest,
    r = Path.takeSegment r ++ rest
    /\ (rest = [] \/ exists rest', rest = 47 :: rest').
Proof.
  induction r as [|c r (rest & E & H)]; [exists []; now split; [|left]|].
  simpl. destruct (N.eqb c Path.slash) eqn:Ec.
  - apply N.eqb_eq in Ec. exists (c :: r). split; [reflexivity|].
    right. exists r. now rewrite Ec.
  - exists rest. split; [simpl; now f_equal | assumption].
Qed.

Lemma dropSlashes_slashes (sl r : jsstring) :
  Forall (fun c => c = 47) sl ->
  Path.dropSlashes (sl ++ r) = Path.dropSlashes r.
Proof.
  induction 1 as [|c sl Hc _ IH]; [reflexivity|]. subst c. simpl. exact IH.
Qed.

Lemma Forall_slash_rev (sl : jsstring) :
  Forall (fun c => c = 47) sl -> Forall (fun c => c = 47) (rev sl).
Proof. apply Forall_rev. Qed.

(** [path.basename] gives the basename. *)
Lemma basename_Basename (p : jsstring) : Basename p (Path.basename p).
Proof.
  split; [apply Classifier.basename_NoSlash|].
  unfold Path.basename.
  destruct (dropSlashes_split (rev p)) as (sl & Esl & Hsl).
  destruct (takeSegment_split (Path.dropSlashes (rev p))) as (rest & Er & Hr).
  set (seg := Path.takeSegment (Path.dropSlashes (rev p))) in *.
  exists (rev rest), (rev sl).
  split; [|split; [now apply Forall_slash_rev | split]].
  - rewrite <- (rev_involutive p), Esl, Er.
    now rewrite !rev_app_distr, <- app_assoc.
  - destruct Hr as [-> | (rest' & ->)]; [now left|].
    right. exists (rev rest'). reflexivity.
  - intros E. apply (f_equal (@rev N)) in E. rewrite rev_involutive in E.
    simpl in E. rewrite E in Er. simpl in Er.
    destruct Hr as [-> | (rest' & ->)]; [reflexivity|].
    now elim (dropSlashes_head (rev p) 47 rest' Er).
Qed.

(** The basename is what [path.basename] gives. *)
Lemma Basename_basename (p base : jsstring) :
  Basename p base -> base = Path.basename p.
Proof.
  intros (Hb & dir & trail & -> & Ht & Hd & Hnil).
  unfold Path.basename. rewrite !rev_app_distr, <- app_assoc.
  rewrite dropSlashes_slashes by now apply Forall_slash_rev.
  destruct base as [|b base].
  - rewrite (Hnil eq_refl). reflexivity.
  - assert (Hrev : NoSlash (rev (b :: base))) by now apply Classifier.NoSlash_rev.
    assert (Hne : rev (b :: base) <> []).
    { intros E. apply (f_equal (@rev N)) in E.
      rewrite rev_involutive in E. discriminate. }
    rewrite Classifier.dropSlashes_app by assumption.
    destruct Hd as [-> | (d & ->)].
    + change (rev (@nil N)) with (@nil N). rewrite app_nil_r.
      rewrite Classifier.takeSegment_id by assumption.
      now rewrite rev_involutive.
    + rewrite rev_app_distr.
      change (rev [47] ++ rev d) with (Path.slash :: rev d).
      rewrite (Classifier.takeSegment_app _ (rev d) Hrev).
      now rewrite rev_involutive.
Qed.

(** *** The stem *)

Lemma stripExt_Stem (base : jsstring) : Stem base (stripExt base).
Proof.
  induction base as [|c r IH].
  - right. split; [reflexivity|]. intros s x E (e & -> & _).
    destruct s; discriminate.
  - change (stripExt (c :: r))
      with (if Re.test (Re.lit (js ".") (Re.plus notDot Re.eos) (c :: r))
            then [] else c :: stripExt r).
    destruct (Re.test (Re.lit (js ".") (Re.plus notDot Re.eos) (c :: r))) eqn:T.
    + apply Classifier.extRe_spec in T. left. now exists (c :: r).
    + destruct IH as [(x & Hx & E) | (E & Hno)].
      * left. exists x. split; [assumption|]. simpl. now f_equal.
      * right. rewrite E. split; [reflexivity|]. intros s x Es Hx.
        destruct s as [|d s].
        -- simpl in Es. subst x. apply Classifier.extRe_spec in Hx. congruence.
        -- injection Es as _ Es. now apply (Hno s x).
Qed.

Lemma Stem_stripExt (base stem : jsstring) : Stem base stem -> stem = stripExt base.
Proof.
  intros [(x & Hx & ->) | (-> & Hno)].
  - now rewrite Classifier.stripExt_strips.
  - now rewrite Classifier.stripExt_keeps.
Qed.

(** *** The camelCase boundaries *)

Lemma camelSplit_BoundarySplit (s : jsstring) : BoundarySplit s (camelSplit s).
Proof.
  induction s as [|x r IH]; [constructor|].
  rewrite ClassifierMore.camelSplit_step. destruct r as [|y r]; [constructor|].
  unfold gap. destruct (isLowerOrDigit x && isUpper y) eqn:E.
  - apply andb_true_iff in E as [Hx Hy]. simpl app.
    apply split_boundary; [now apply Classifier.isLowerOrDigit_spec
                          | now apply isUpper_spec | exact IH].
  - simpl app. apply split_plain; [|exact IH]. intros [Hx Hy].
    apply Classifier.isLowerOrDigit_spec in Hx. apply isUpper_spec in Hy.
    now rewrite Hx, Hy in E.
Qed.

Lemma BoundarySplit_camelSplit (s w : jsstring) :
  BoundarySplit s w -> w = camelSplit s.
Proof.
  induction 1 as [| x | x y r w Hx Hy _ IH | x y r w Hn _ IH];
    try reflexivity; rewrite ClassifierMore.camelSplit_step; unfold gap.
  - apply Classifier.isLowerOrDigit_spec in Hx. apply isUpper_spec in Hy.
    rewrite Hx, Hy. simpl. now rewrite IH.
  - destruct (isLowerOrDigit x && isUpper y) eqn:E.
    + apply andb_true_iff in E as [Hx Hy]. elim Hn.
      split; [now apply Classifier.isLowerOrDigit_spec | now apply isUpper_spec].
    + simpl. now rewrite IH.
Qed.

(** *** Lower case *)

Lemma toLowerCase_LowerCase (s : jsstring) : LowerCase s (toLowerCase s).
Proof.
  induction s as [|c s IH]; [constructor|].
  unfold toLowerCase in *. simpl. unfold lowerUnit.
  destruct (isUpper c) eqn:Eu.
  - simpl. apply lower_capital; [now apply isUpper_spec | exact IH].
  - assert (Hu : ~ upper c) by (intros K; apply isUpper_spec in K; congruence).
    destruct (N.eqb c 304) eqn:E1.
    + apply N.eqb_eq in E1. subst c. simpl. now apply lower_dotted_I.
    + destruct (N.eqb c 8490) eqn:E2.
      * apply N.eqb_eq in E2. subst c. simpl. now apply lower_kelvin.
      * apply N.eqb_neq in E1, E2. simpl. now apply lower_other.
Qed.

Lemma LowerCase_toLowerCase (s w : jsstring) : LowerCase s w -> w = toLowerCase s.
Proof.
  unfold toLowerCase.
  induction 1 as [| c s w Hc _ IH | s w _ IH | s w _ IH | c s w Hc H1 H2 _ IH];
    try reflexivity; simpl; unfold lowerUnit.
  - apply isUpper_spec in Hc. rewrite Hc. simpl. now rewrite IH.
  - change (isUpper 304) with false. simpl. now rewrite IH.
  - change (isUpper 8490) with false. simpl. now rewrite IH.
  - assert (Eu : isUpper c = false).
    { apply not_true_is_false. intros K. now apply isUpper_spec in K. }
    apply N.eqb_neq in H1, H2. rewrite Eu, H1, H2. simpl. now rewrite IH.
Qed.

(** *** The whole *)

Lemma normalized_Normalized (p : jsstring) : Normalized p (normalized p).
Proof.
  exists (Path.basename p), (stripExt (Path.basename p)),
         (camelSplit (stripExt (Path.basename p))).
  split; [apply basename_Basename|]. split; [apply stripExt_Stem|].
  split; [apply camelSplit_BoundarySplit | apply toLowerCase_LowerCase].
Qed.

Lemma Normalized_normalized (p w : jsstring) : Normalized p w -> w = normalized p.
Proof.
  intros (base & stem & parts & Hb & Hs & Hc & Hl).
  apply Basename_basename in Hb. subst base.
  apply Stem_stripExt in Hs. subst stem.
  apply BoundarySplit_camelSplit in Hc. subst parts.
  now apply LowerCase_toLowerCase in Hl.
Qed.

(** C1: [shouldBlockPath] answers true exactly when some token of the
    normalized basename is in the banned set or is [v] followed by one or
    more decimal digits, where the normalized basename is the last
    segment of the path, without its final extension, with an underscore
    at each camelCase boundary, in lower case, and a token is a maximal
    run of code units in [a-z0-9]; among the examples,
    "feature_enhanced.ts" and "parser_v2.rs" are flagged and "feature.ts",
    "parser_v.rs" and "parser_version.rs" are not, and neither an
    extension nor a directory is looked at. *)
Theorem C1_variant_iff_banned_or_version_token :
  (forall p : jsstring,
      shouldBlockPath p = true <->
      exists w t, Normalized p w /\ Token t w /\ (In t BANNED \/ VersionToken t))
  /\ (forall p, exists w, Normalized p w)
  /\ shouldBlockPath (js "feature_enhanced.ts") = true
  /\ shouldBlockPath (js "FeatureEnhanced.go") = true
  /\ shouldBlockPath (js "parser_v2.rs") = true
  /\ shouldBlockPath (js "feature.ts") = false
  /\ shouldBlockPath (js "parser_v.rs") = false
  /\ shouldBlockPath (js "parser_version.rs") = false
  /\ shouldBlockPath (js "src/feature_enhanced.ts") = true
  /\ shouldBlockPath (js "archive.old.gz") = true
  /\ shouldBlockPath (js "report.bak") = false
  /\ shouldBlockPath (js "backup/utils.js") = false
  /\ shouldBlockPath (js "old/v2/utils.tmp") = false.
Proof.
  split.
  { intros p. rewrite Classifier.shouldBlockPath_iff. split.
    - intros (t & Ht & Hb). exists (normalized p), t.
      split; [apply normalized_Normalized | now split].
    - intros (w & t & Hw & Ht & Hb). apply Normalized_normalized in Hw.
      subst w. now exists t. }
  split; [intros p; exists (normalized p); apply normalized_Normalized|].
  repeat split; vm_compute; reflexivity.
Qed.

End Refinement.

(** ** More on the patch scanner *)

Module ScannerMore.

Import ScannerSpec MoreSpec StrFacts.

Lemma splitAt_app (a b cur : jsstring) :
  splitAt 10 cur (a ++ 10 :: b) = splitAt 10 cur a ++ splitAt 10 [] b.
Proof.
  revert cur; induction a as [|c a IH]; intros cur; [reflexivity|].
  simpl. destruct (N.eqb c 10); [|apply IH].
  simpl. f_equal. apply IH.
Qed.

(** The lines of two texts joined by a line feed. *)
Lemma split_app (a b : jsstring) :
  split 10 (a ++ 10 :: b) = split 10 a ++ split 10 b.
Proof. apply splitAt_app. Qed.

Lemma split_line (l : jsstring) : NoLF l -> split 10 l = [l].
Proof.
  intros H. unfold split. rewrite <- (app_nil_r l) at 1.
  rewrite Scanner.splitAt_line by assumption.
  simpl. now rewrite app_nil_r, rev_involutive.
Qed.

Lemma line_at_app_l (L L' : list jsstring) (i : nat) :
  (i < List.length L)%nat -> line_at (L ++ L') i = line_at L i.
Proof. intros H. unfold line_at. now apply app_nth1. Qed.

Lemma line_at_app_r (L L' : list jsstring) (i : nat) :
  line_at (L ++ L') (List.length L + i) = line_at L' i.
Proof. unfold line_at. apply app_nth2_plus. Qed.

(** *** Lines that follow do not take paths away *)

Lemma Added_app (L L' : list jsstring) (p : jsstring) :
  Added L p -> Added (L ++ L') p.
Proof.
  intros (i & j & k & Hi & Hh & (Hj & Hm & Hfirst) & Hk & Hp).
  exists i, j, k. unfold FirstMarker. rewrite length_app.
  rewrite (line_at_app_l L L' i), (line_at_app_l L L' j),
          (line_at_app_l L L' k) by lia.
  split; [lia|]. split; [assumption|]. split.
  - split; [lia|]. split; [assumption|].
    intros j' Hj'. rewrite line_at_app_l by lia. now apply Hfirst.
  - split; [lia | assumption].
Qed.

(** X9: lines added after a text do not take any path away: every path
    found in a text is found in the text followed by a line feed and
    anything else, so that a diff cut at the end of a line yields a part
    of what the whole diff yields. *)
Theorem X9_scan_grows_with_appended_lines :
  forall text more p,
    In p (parseNewFilesFromPatch (VString text)) ->
    In p (parseNewFilesFromPatch (VString (text ++ 10 :: more))).
Proof.
  intros text more p H. apply Scanner.scan_Added in H.
  apply Scanner.scan_Added. rewrite split_app. now apply Added_app.
Qed.

Lemma X9_witness :
  In (js "a.py") (parseNewFilesFromPatch (newFileDiff [js "a.py"]))
  /\ In (js "a.py")
        (parseNewFilesFromPatch
           (VString (unlines (newFileBlock (js "a.py")) ++ 10 :: js "\ No newline"))).
Proof.
  assert (H : In (js "a.py") (parseNewFilesFromPatch (newFileDiff [js "a.py"])))
    by (vm_compute; intuition).
  split; [exact H|].
  exact (X9_scan_grows_with_appended_lines
           (unlines (newFileBlock (js "a.py"))) (js "\ No newline") (js "a.py") H).
Defined.

(** *** Lines in front of the first header *)

Lemma find_map (f h : nat -> bool) (g : nat -> nat) (l : list nat) :
  (forall x, f (g x) = h x) ->
  find f (map g l) = option_map g (find h l).
Proof.
  intros E. induction l as [|x l IH]; [reflexivity|]. simpl.
  rewrite E. destruct (h x); [reflexivity | exact IH].
Qed.

Lemma flat_map_map (A B C : Type) (f : B -> list C) (g : A -> B) (l : list A) :
  flat_map f (map g l) = flat_map (fun x => f (g x)) l.
Proof.
  induction l as [|x l IH]; [reflexivity|]. simpl. now rewrite IH.
Qed.

Lemma upto_shift (P L : list jsstring) (a b : nat) :
  upto (P ++ L) (List.length P + a) (List.length P + b)
  = map (Nat.add (List.length P)) (upto L a b).
Proof.
  unfold upto. rewrite length_app, <- Scanner.seq_add. f_equal. lia.
Qed.

Lemma hits_shift (P L : list jsstring) (j : nat) :
  hits (P ++ L) (List.length P + j) = hits L j.
Proof.
  unfold hits.
  replace (List.length P + j + 6)%nat with (List.length P + (j + 6))%nat by lia.
  rewrite upto_shift, flat_map_map.
  apply flat_map_ext. intros k. now rewrite line_at_app_r.
Qed.

(** What a header yields depends on the lines from it on only. *)
Lemma found_shift (P L : list jsstring) (i : nat) :
  found (P ++ L) (List.length P + i) = found L i.
Proof.
  unfold found. rewrite line_at_app_r.
  destruct (headerRe (line_at L i)); [|reflexivity].
  replace (List.length P + i + 1)%nat with (List.length P + (i + 1))%nat by lia.
  replace (List.length P + i + 8)%nat with (List.length P + (i + 8))%nat by lia.
  rewrite upto_shift.
  rewrite (find_map _ (fun j => marker (line_at L j)))
    by (intros j; now rewrite line_at_app_r).
  destruct (find _ _) as [j|]; simpl; [apply hits_shift | reflexivity].
Qed.

Lemma found_not_header (L : list jsstring) (i : nat) :
  ~ IsHeader (line_at L i) -> found L i = [].
Proof.
  intros H. unfold found.
  destruct (headerRe (line_at L i)) eqn:E; [|reflexivity].
  apply Scanner.headerRe_spec in E. contradiction.
Qed.

(** X10: lines in front of a diff that are not per-file headers (a commit
    message, a mail header) change nothing: the scan of such lines, a line
    feed and a text is the scan of the text. *)
Theorem X10_lines_before_first_header_ignored :
  forall preamble text,
    (forall line, In line (split 10 preamble) -> ~ IsHeader line) ->
    parseNewFilesFromPatch (VString (preamble ++ 10 :: text))
    = parseNewFilesFromPatch (VString text).
Proof.
  intros preamble text H. rewrite !Scanner.scan_found, split_app.
  set (P := split 10 preamble) in *. set (L := split 10 text).
  rewrite length_app, seq_app, flat_map_app. f_equal.
  rewrite Scanner.flat_map_nil.
  - simpl. rewrite <- (Nat.add_0_r (List.length P)) at 1.
    rewrite Scanner.seq_add, flat_map_map.
    apply flat_map_ext. intros i. apply found_shift.
  - intros i Hi. apply in_seq in Hi. apply found_not_header.
    rewrite line_at_app_l by lia. apply H. apply nth_In. lia.
Qed.

Lemma X10_witness :
  (forall line, In line (split 10 (js "From: someone")) -> ~ IsHeader line)
  /\ parseNewFilesFromPatch
       (VString (js "From: someone" ++ 10 :: unlines (newFileBlock (js "a.py"))))
     = parseNewFilesFromPatch (VString (unlines (newFileBlock (js "a.py")))).
Proof.
  assert (H : forall line,
             In line (split 10 (js "From: someone")) -> ~ IsHeader line).
  { intros line [<- | []] (old & new & E & _). discriminate E. }
  split; [exact H|].
  exact (X10_lines_before_first_header_ignored
           (js "From: someone") (unlines (newFileBlock (js "a.py"))) H).
Defined.

(** *** Carriage returns *)

(** A header cannot end in a line terminator. *)
Lemma header_end (l : jsstring) (c : N) :
  isLineTerminator c = true -> ~ IsHeader (l ++ [c]).
Proof.
  intros Hc (old & new & E & _ & Hne & Hall).
  destruct (exists_last Hne) as (new' & z & ->).
  rewrite !app_assoc in E. apply app_inj_tail in E as [_ ->].
  apply Forall_app in Hall as [_ Hz]. inversion Hz; subst. congruence.
Qed.

Lemma split_crlfText (ls : list jsstring) :
  Forall NoLF ls ->
  split 10 (crlfText ls) = map (fun l => l ++ [13]) ls ++ [[]].
Proof.
  induction 1 as [|l ls Hl _ IH]; [reflexivity|].
  unfold crlfText in *. cbn [flat_map map].
  replace ((l ++ [13; 10]) ++ flat_map (fun l0 => l0 ++ [13; 10]) ls)
    with ((l ++ [13]) ++ 10 :: flat_map (fun l0 => l0 ++ [13; 10]) ls)
    by (rewrite <- !app_assoc; reflexivity).
  rewrite split_app, IH, split_line; [reflexivity|].
  apply Scanner.NoLF_app; [assumption|]. now apply Scanner.NoLF_js.
Qed.

(** X11: a header line that ends in a carriage return is not a header, so
    a diff whose lines all end in carriage return and line feed yields the
    empty set, whatever it adds. *)
Theorem X11_crlf_diff_yields_nothing :
  (forall l c, isLineTerminator c = true -> headerRe (l ++ [c]) = false)
  /\ (forall ls, Forall NoLF ls ->
                 parseNewFilesFromPatch (VString (crlfText ls)) = []).
Proof.
  split.
  - intros l c Hc. apply not_true_is_false. intros K.
    apply Scanner.headerRe_spec in K. now apply (header_end l c Hc).
  - intros ls H. apply Scanner.scan_no_header. intros line Hin.
    rewrite (split_crlfText ls H) in Hin. apply in_app_or in Hin as [Hin | Hin].
    + apply in_map_iff in Hin as (l & <- & _). now apply header_end.
    + destruct Hin as [<- | []]. intros (old & new & E & _). discriminate E.
Qed.

Lemma X11_witness :
  Forall NoLF (newFileBlock (js "new_enhanced.py"))
  /\ parseNewFilesFromPatch (VString (crlfText (newFileBlock (js "new_enhanced.py"))))
     = [].
Proof.
  assert (H : Forall NoLF (newFileBlock (js "new_enhanced.py"))).
  { apply Scanner.newFileBlock_NoLF. split; [discriminate | repeat constructor]. }
  split; [exact H|].
  exact (proj2 X11_crlf_diff_yields_nothing (newFileBlock (js "new_enhanced.py")) H).
Defined.

(** *** A text of one line *)

(** X21: a text without a line feed yields the empty set: the marker that
    the scan needs stands on a line after the header, and there is none. *)
Theorem X21_single_line_yields_nothing :
  forall text, NoLF text -> parseNewFilesFromPatch (VString text) = [].
Proof.
  intros text H.
  destruct (parseNewFilesFromPatch (VString text)) as [|p rest] eqn:E;
    [reflexivity|].
  assert (K : In p (parseNewFilesFromPatch (VString text)))
    by (rewrite E; now left).
  apply Scanner.scan_Added in K. rewrite (split_line text H) in K.
  destruct K as (i & j & k & Hi & _ & (Hj & _) & _). simpl in Hi, Hj. lia.
Qed.

Lemma X21_witness :
  NoLF (js "diff --git a/x_old.py b/x_old.py")
  /\ parseNewFilesFromPatch (VString (js "diff --git a/x_old.py b/x_old.py")) = [].
Proof.
  assert (H : NoLF (js "diff --git a/x_old.py b/x_old.py"))
    by (now apply Scanner.NoLF_js).
  split; [exact H|].
  exact (X21_single_line_yields_nothing (js "diff --git a/x_old.py b/x_old.py") H).
Defined.

(** *** An empty new file in front of a changed file *)





End ScannerMore.

(** ** More on the hook *)

Module HookMore.

Import HookSpec MoreSpec StrFacts.

Lemma write_is_not_patch (v : value) :
  strictEqStr v (js "write") = true -> strictEqStr v (js "patch") = true -> False.
Proof.
  intros Hw Hp. apply Hook.strictEqStr_true in Hw. subst v.
  vm_compute in Hp. discriminate Hp.
Qed.

Lemma check_cases (client : jsstring -> sink) (via s : jsstring) :
  (shouldBlockPath s = false /\ check client via s = ([Classified s], Normal tt))
  \/ (shouldBlockPath s = true
      /\ check client via s
         = (Classified s :: sinkCalls client (msg s via), Throw (msg s via))).
Proof.
  destruct (shouldBlockPath s) eqn:E.
  - right. split; [reflexivity | now apply Hook.check_flagged].
  - left. split; [reflexivity | now apply Hook.check_clean].
Qed.

(** How the hook can run: the three tool kinds, and within each what was
    flagged. *)
Lemma hook_cases (client : jsstring -> sink) (input output : value) :
  let r := tool_execute_before client input output in
  (r = ([], Normal tt))
  \/ (exists s,
         strictEqStr (optGet input (js "tool")) (js "write") = true
         /\ pathArg output = VString s
         /\ ((shouldBlockPath s = false /\ r = ([Classified s], Normal tt))
             \/ (shouldBlockPath s = true
                 /\ r = (Classified s :: sinkCalls client (msg s (js "write")),
                         Throw (msg s (js "write"))))))
  \/ (strictEqStr (optGet input (js "tool")) (js "patch") = true
      /\ ((Forall (fun q => shouldBlockPath q = false)
                  (parseNewFilesFromPatch (patchArg output))
           /\ r = (map Classified (parseNewFilesFromPatch (patchArg output)),
                   Normal tt))
          \/ (exists pre p post,
                 parseNewFilesFromPatch (patchArg output) = pre ++ p :: post
                 /\ Forall (fun q => shouldBlockPath q = false) pre
                 /\ shouldBlockPath p = true
                 /\ r = (map Classified pre
                           ++ Classified p
                                :: sinkCalls client (msg p (js "patch(add)")),
                         Throw (msg p (js "patch(add)")))))).
Proof.
  intros r. subst r.
  destruct (strictEqStr (optGet input (js "tool")) (js "write")) eqn:Ew.
  - rewrite Hook.hook_write by assumption.
    destruct (pathArg output) eqn:Ep; try (left; reflexivity).
    right. left. exists s. split; [reflexivity|]. split; [reflexivity|].
    apply check_cases.
  - destruct (strictEqStr (optGet input (js "tool")) (js "patch")) eqn:Et.
    + right. right. split; [reflexivity|].
      rewrite Hook.hook_patch by assumption.
      destruct (Hook.first_flagged (parseNewFilesFromPatch (patchArg output)))
        as [H | (pre & p & post & E & Hpre & Hp)].
      * left. split; [assumption | now apply Hook.forOf_clean].
      * right. exists pre, p, post. rewrite E.
        repeat split; try assumption. now apply Hook.forOf_first_flagged.
    + left. now apply Hook.hook_other.
Qed.

(** X13: whatever the call, the hook throws nothing but a rejection: the
    error it throws is the message for a path that the classifier flags,
    the path argument of a [write] or a file found in the diff of a
    [patch]; a fault of the sink or a malformed argument is never what
    comes out. *)
Theorem X13_hook_throws_only_rejections_of_flagged_paths :
  forall client input output e,
    snd (tool_execute_before client input output) = Throw e ->
    exists p,
      shouldBlockPath p = true
      /\ ((strictEqStr (optGet input (js "tool")) (js "write") = true
           /\ pathArg output = VString p /\ e = msg p (js "write"))
          \/ (strictEqStr (optGet input (js "tool")) (js "patch") = true
              /\ In p (parseNewFilesFromPatch (patchArg output))
              /\ e = msg p (js "patch(add)"))).
Proof.
  intros client input output e H.
  destruct (hook_cases client input output)
    as [E | [(s & Hw & Hp & [[_ E] | [Hs E]])
           | (Ht & [[_ E] | (pre & p & post & Hscan & _ & Hp & E)])]];
    rewrite E in H; simpl in H; try discriminate; injection H as <-.
  - exists s. split; [assumption|]. left. now repeat split.
  - exists p. split; [assumption|]. right. split; [assumption|].
    split; [|reflexivity]. rewrite Hscan. apply in_or_app. right. now left.
Qed.

Lemma X13_witness :
  snd (tool_execute_before brokenClient (toolCall (js "write"))
         (withArgs [(js "path", VString (js "notes_final.md"))]))
  = Throw (msg (js "notes_final.md") (js "write"))
  /\ exists p,
       shouldBlockPath p = true
       /\ ((strictEqStr (optGet (toolCall (js "write")) (js "tool")) (js "write") = true
            /\ pathArg (withArgs [(js "path", VString (js "notes_final.md"))]) = VString p
            /\ msg (js "notes_final.md") (js "write") = msg p (js "write"))
           \/ (strictEqStr (optGet (toolCall (js "write")) (js "tool")) (js "patch") = true
               /\ In p (parseNewFilesFromPatch
                          (patchArg (withArgs [(js "path", VString (js "notes_final.md"))])))
               /\ msg (js "notes_final.md") (js "write") = msg p (js "patch(add)"))).
Proof.
  assert (H : snd (tool_execute_before brokenClient (toolCall (js "write"))
                     (withArgs [(js "path", VString (js "notes_final.md"))]))
              = Throw (msg (js "notes_final.md") (js "write"))) by reflexivity.
  split; [exact H|].
  exact (X13_hook_throws_only_rejections_of_flagged_paths brokenClient
           (toolCall (js "write"))
           (withArgs [(js "path", VString (js "notes_final.md"))])
           (msg (js "notes_final.md") (js "write")) H).
Defined.

(** X14: the hook returns normally exactly when nothing it looks at is
    flagged: for a [write], the path argument is not a string or is
    clean; for a [patch], every file of the scan is clean. *)
Theorem X14_hook_returns_iff_nothing_flagged :
  forall client input output,
    snd (tool_execute_before client input output) = Normal tt <->
    (strictEqStr (optGet input (js "tool")) (js "write") = true ->
     forall s, pathArg output = VString s -> shouldBlockPath s = false)
    /\ (strictEqStr (optGet input (js "tool")) (js "patch") = true ->
        Forall (fun q => shouldBlockPath q = false)
               (parseNewFilesFromPatch (patchArg output))).
Proof.
  intros client input output. split.
  - intros H.
    destruct (hook_cases client input output)
      as [E | [(s & Hw & Hp & [[Hs E] | [Hs E]])
             | (Ht & [[Hall E] | (pre & p & post & Hscan & _ & Hp & E)])]];
      rewrite E in H; simpl in H; try discriminate.
    + apply (f_equal fst) in E. simpl in E.
      split.
      * intros Hw s Hp. rewrite Hook.hook_write in E by assumption.
        rewrite Hp in E.
        destruct (check_cases client (js "write") s) as [[Hs _] | [_ K]];
          [assumption | rewrite K in E; discriminate].
      * intros Ht. rewrite Hook.hook_patch in E by assumption.
        destruct (Hook.first_flagged (parseNewFilesFromPatch (patchArg output)))
          as [Hall | (pre & p & post & Hscan & Hpre & Hp)]; [assumption|].
        rewrite Hscan, (Hook.forOf_first_flagged client _ pre p post Hpre Hp) in E.
        simpl in E. destruct pre; discriminate.
    + split.
      * intros _ s' Hp'. rewrite Hp in Hp'. now injection Hp' as <-.
      * intros Ht. now elim (write_is_not_patch _ Hw Ht).
    + split.
      * intros Hw. now elim (write_is_not_patch _ Hw Ht).
      * intros _. exact Hall.
  - intros [Hw Hp].
    destruct (hook_cases client input output)
      as [E | [(s & Hw' & Hs & [[_ E] | [Hflag E]])
             | (Ht & [[_ E] | (pre & p & post & Hscan & _ & Hflag & E)])]];
      rewrite E; simpl; try reflexivity.
    + rewrite (Hw Hw' s Hs) in Hflag. discriminate.
    + specialize (Hp Ht). rewrite Hscan in Hp.
      apply Forall_app in Hp as [_ Hp]. inversion Hp; subst. congruence.
Qed.

Lemma calls_shape (ps : list jsstring) (client : jsstring -> sink)
      (r : completion unit) :
  calls (map Classified ps ++ afterwards client r) = afterwards client r.
Proof.
  unfold calls. rewrite filter_app.
  assert (A : filter isToast (map Classified ps) = [])
    by (induction ps as [|q ps IH]; [reflexivity | exact IH]).
  rewrite A. simpl. destruct r as [[]|e]; [reflexivity|].
  simpl. unfold sinkCalls. destruct (client e); reflexivity.
Qed.

(** X15: the sink is called only for a rejection, with the text that is
    thrown and the variant [error]: once when the host has a sink to call,
    whether the call returns or faults, and not at all when it has none; a
    call that is let through makes no sink call. *)
Theorem X15_sink_called_only_with_a_rejection :
  forall client input output,
    calls (fst (tool_execute_before client input output))
    = match snd (tool_execute_before client input output) with
      | Normal _ => []
      | Throw e =>
          match client e with
          | Unsupported _ => []
          | _ => [ShowToast e (js "error")]
          end
      end.
Proof.
  intros client input output.
  destruct (Hook.hook_shape input output) as (ps & r & H).
  rewrite (H client). cbn [fst snd]. rewrite calls_shape.
  destruct r as [[]|e]; reflexivity.
Qed.

(** *** Which argument is read *)

Lemma nullish_left (a b : value) : isNullish a = false -> nullish a b = a.
Proof. destruct a; simpl; intros H; reflexivity || discriminate. Qed.

Lemma nullish_right (a b : value) : isNullish a = true -> nullish a b = b.
Proof. destruct a; simpl; intros H; reflexivity || discriminate. Qed.

(** X16: for a [write], [filePath] is read first and [path] only when
    [filePath] is [null] or [undefined]: a string [filePath] is the path
    that is checked, whatever [path] is; a string [path] is checked when
    [filePath] is missing; and a [filePath] that is there but is not a
    string lets the call through unchecked, whatever [path] names. *)
Theorem X16_write_reads_filePath_before_path :
  forall client input output,
    strictEqStr (optGet input (js "tool")) (js "write") = true ->
    let filePath := optGet (optGet output (js "args")) (js "filePath") in
    let path := optGet (optGet output (js "args")) (js "path") in
    (forall s, filePath = VString s ->
               tool_execute_before client input output
               = tool_execute_before client input
                   (withArgs [(js "filePath", VString s)]))
    /\ (forall s, isNullish filePath = true -> path = VString s ->
                  tool_execute_before client input output
                  = tool_execute_before client input
                      (withArgs [(js "filePath", VString s)]))
    /\ (isNullish filePath = false -> isString filePath = false ->
        tool_execute_before client input output = ([], Normal tt)).
Proof.
  intros client input output Hw filePath path.
  assert (Canon : forall s,
             pathArg (withArgs [(js "filePath", VString s)]) = VString s)
    by reflexivity.
  split; [|split].
  - intros s E. rewrite !Hook.hook_write by assumption.
    rewrite Canon. unfold pathArg. fold filePath. now rewrite E.
  - intros s Hn E. rewrite !Hook.hook_write by assumption.
    rewrite Canon. unfold pathArg. fold filePath path.
    now rewrite nullish_right, E.
  - intros Hn Hs. rewrite Hook.hook_write by assumption.
    unfold pathArg. fold filePath path. rewrite nullish_left by assumption.
    destruct filePath; try reflexivity. discriminate.
Qed.

Lemma X16_witness :
  strictEqStr (optGet (toolCall (js "write")) (js "tool")) (js "write") = true
  /\ isNullish (optGet (optGet (withArgs [(js "filePath", VBool false);
                                          (js "path", VString (js "app_v2.js"))])
                          (js "args")) (js "filePath")) = false
  /\ isString (optGet (optGet (withArgs [(js "filePath", VBool false);
                                         (js "path", VString (js "app_v2.js"))])
                         (js "args")) (js "filePath")) = false
  /\ shouldBlockPath (js "app_v2.js") = true
  /\ tool_execute_before workingClient (toolCall (js "write"))
       (withArgs [(js "filePath", VBool false);
                  (js "path", VString (js "app_v2.js"))])
     = ([], Normal tt).
Proof.
  split; [reflexivity|]. split; [reflexivity|]. split; [reflexivity|].
  split; [reflexivity|].
  exact (proj2 (proj2 (X16_write_reads_filePath_before_path workingClient
           (toolCall (js "write"))
           (withArgs [(js "filePath", VBool false);
                      (js "path", VString (js "app_v2.js"))])
           eq_refl)) eq_refl eq_refl).
Defined.

(** X17: for a [patch], [patch] is read first and [content] only when
    [patch] is [null] or [undefined]: a string [patch] is the diff that is
    scanned, whatever [content] is; a string [content] is scanned when
    [patch] is missing; and a [patch] that is there but is not a string
    lets the call through unscanned, whatever [content] holds. *)
Theorem X17_patch_reads_patch_before_content :
  forall client input output,
    strictEqStr (optGet input (js "tool")) (js "patch") = true ->
    let patch := optGet (optGet output (js "args")) (js "patch") in
    let content := optGet (optGet output (js "args")) (js "content") in
    (forall t, patch = VString t ->
               tool_execute_before client input output
               = tool_execute_before client input
                   (withArgs [(js "patch", VString t)]))
    /\ (forall t, isNullish patch = true -> content = VString t ->
                  tool_execute_before client input output
                  = tool_execute_before client input
                      (withArgs [(js "patch", VString t)]))
    /\ (isNullish patch = false -> isString patch = false ->
        tool_execute_before client input output = ([], Normal tt)).
Proof.
  intros client input output Hp patch content.
  assert (Canon : forall t,
             patchArg (withArgs [(js "patch", VString t)]) = VString t)
    by reflexivity.
  split; [|split].
  - intros t E. rewrite !Hook.hook_patch by assumption.
    rewrite Canon. unfold patchArg. fold patch. now rewrite E.
  - intros t Hn E. rewrite !Hook.hook_patch by assumption.
    rewrite Canon. unfold patchArg. fold patch content.
    now rewrite nullish_right, E.
  - intros Hn Hs. rewrite Hook.hook_patch by assumption.
    unfold patchArg. fold patch content. rewrite nullish_left by assumption.
    destruct patch; try reflexivity. discriminate.
Qed.

Lemma X17_witness :
  strictEqStr (optGet (toolCall (js "patch")) (js "tool")) (js "patch") = true
  /\ isNullish (optGet (optGet (withArgs
         [(js "patch", VNumber 0);
          (js "content", ScannerSpec.newFileDiff [js "new_enhanced.py"])])
         (js "args")) (js "patch")) = false
  /\ isString (optGet (optGet (withArgs
         [(js "patch", VNumber 0);
          (js "content", ScannerSpec.newFileDiff [js "new_enhanced.py"])])
         (js "args")) (js "patch")) = false
  /\ tool_execute_before workingClient (toolCall (js "patch"))
       (withArgs [(js "patch", VNumber 0);
                  (js "content", ScannerSpec.newFileDiff [js "new_enhanced.py"])])
     = ([], Normal tt).
Proof.
  split; [reflexivity|]. split; [reflexivity|]. split; [reflexivity|].
  exact (proj2 (proj2 (X17_patch_reads_patch_before_content workingClient
           (toolCall (js "patch"))
           (withArgs [(js "patch", VNumber 0);
                      (js "content", ScannerSpec.newFileDiff [js "new_enhanced.py"])])
           eq_refl)) eq_refl eq_refl).
Defined.

(** *** The text of the rejection *)

(** X18: the message of a rejection names the tool kind and, for a given
    tool kind, belongs to one path only: two paths with the same message
    are the same path. *)
Theorem X18_message_determines_path :
  (forall p via, Contains via (msg p via))
  /\ (forall p q via, msg p via = msg q via -> p = q).
Proof.
  split; [exact Hook.msg_contains_tool|].
  intros p q via H. unfold msg in H.
  apply app_inv_head in H. apply app_inv_head in H.
  apply app_inv_head in H. apply app_inv_head in H.
  apply app_inv_head in H. now apply app_inv_tail in H.
Qed.

Lemma X18_witness :
  msg (js "a_old.js") (js "write") = msg (js "a_old.js") (js "write")
  /\ js "a_old.js" = js "a_old.js".
Proof.
  split; [reflexivity|].
  exact (proj2 X18_message_determines_path (js "a_old.js") (js "a_old.js")
           (js "write") eq_refl).
Defined.

(** *** Patches, file by file *)








End HookMore.
